(** * Compliance analysis pipeline of server.js

    A shallow embedding of the analysis core of [server.js]: the document
    chunker, the keyword extractor, the rule-based analyzer, the two
    AI-assisted tiers, the degradation controller and the bounded result
    history, followed by the properties stated about them.

    Conventions of the embedding.
    - A JavaScript string is a [string]: a sequence of code units, here the
      code units U+0000 to U+00FF.  The regular expressions of the program
      carry no [u] flag, so [\w] and [\b] are the ASCII classes and [/i]
      never identifies an ASCII letter with a code unit above 127.
    - A number that the program computes itself (a count, a length, a score)
      is an integer far below 2^53 and is kept exact in [nat] or [Z].
    - An [async] function is its result: either a value or a thrown error
      ([outcome]); [try]/[catch] is [catch]. *)

From Stdlib Require Import String Ascii List Bool Arith ZArith NArith QArith Lia.
From Stdlib Require Import Sorted Permutation DecimalNat DecimalString.
Import ListNotations.

Local Close Scope Q_scope.
Local Open Scope string_scope.
Local Open Scope list_scope.

Infix "+++" := String.append (right associativity, at level 60).

(** ** Code units and the character classes of the regular expressions *)

Module Text.

Definition code (c : ascii) : N := N_of_ascii c.

Definition between (lo hi : N) (c : ascii) : bool :=
  ((lo <=? code c) && (code c <=? hi))%N.

(** [\s], and the white space removed by [String.prototype.trim]:
    TAB, LF, VT, FF, CR, SPACE and NO-BREAK SPACE. *)
Definition is_space (c : ascii) : bool :=
  between 9 13 c || (code c =? 32)%N || (code c =? 160)%N.

Definition is_digit (c : ascii) : bool := between 48 57 c.
Definition is_upper (c : ascii) : bool := between 65 90 c.
Definition is_lower (c : ascii) : bool := between 97 122 c.

(** [\w] *)
Definition is_word (c : ascii) : bool :=
  is_upper c || is_lower c || is_digit c || (code c =? 95)%N.

(** [[.!?]] *)
Definition is_terminal (c : ascii) : bool :=
  (code c =? 46)%N || (code c =? 33)%N || (code c =? 63)%N.

Definition is_period (c : ascii) : bool := (code c =? 46)%N.
Definition is_newline (c : ascii) : bool := (code c =? 10)%N.

(** [String.prototype.toLowerCase] on one code unit: the ASCII capitals and
    the Latin-1 capitals U+00C0..U+00DE except the multiplication sign. *)
Definition lower_char (c : ascii) : ascii :=
  if is_upper c || (between 192 222 c && negb (code c =? 215)%N)
  then ascii_of_N (code c + 32) else c.

(** Canonicalisation of a code unit under [/i] against an ASCII pattern. *)
Definition fold_char (c : ascii) : ascii :=
  if is_upper c then ascii_of_N (code c + 32) else c.

Fixpoint map_chars (f : ascii -> ascii) (s : string) : string :=
  match s with
  | EmptyString => EmptyString
  | String c r => String (f c) (map_chars f r)
  end.

Definition toLowerCase : string -> string := map_chars lower_char.

(** [s.trim()] *)
Fixpoint trimStart (s : string) : string :=
  match s with
  | EmptyString => EmptyString
  | String c r => if is_space c then trimStart r else s
  end.

Fixpoint trimEnd (s : string) : string :=
  match s with
  | EmptyString => EmptyString
  | String c r =>
      match trimEnd r with
      | EmptyString => if is_space c then EmptyString else String c EmptyString
      | r' => String c r'
      end
  end.

Definition trim (s : string) : string := trimEnd (trimStart s).

Definition starts_with (p : ascii -> bool) (s : string) : bool :=
  match s with
  | EmptyString => false
  | String c _ => p c
  end.

(** [s.split(/[sep]+/)]: the pieces between the maximal runs of separator
    code units, with the empty pieces at both ends that [split] reports. *)
Fixpoint split_on (sep : ascii -> bool) (s : string) : list string :=
  match s with
  | EmptyString => [EmptyString]
  | String c r =>
      if sep c then
        if starts_with sep r then split_on sep r
        else EmptyString :: split_on sep r
      else
        match split_on sep r with
        | p :: t => String c p :: t
        | [] => [String c EmptyString]
        end
  end.

(** [(s.match(/[p]+/g) || []).length]: the number of maximal runs. *)
Fixpoint count_runs (p : ascii -> bool) (s : string) : nat :=
  match s with
  | EmptyString => 0
  | String c r =>
      if p c && negb (starts_with p r) then S (count_runs p r)
      else count_runs p r
  end.

(** [parts.join(sep)] *)
Fixpoint join (sep : string) (parts : list string) : string :=
  match parts with
  | [] => EmptyString
  | [p] => p
  | p :: rest => p +++ sep +++ join sep rest
  end.

(** [xs.slice(start)] for an integer [start]: a negative start counts from
    the end, and both ends are clamped. *)
Definition slice_from {A : Type} (start : Z) (xs : list A) : list A :=
  let len := Z.of_nat (List.length xs) in
  let k := if (start <? 0)%Z then Z.max (len + start) 0 else Z.min start len in
  skipn (Z.to_nat k) xs.

(** [String(n)] for a natural number. *)
Definition decimal (n : nat) : string := NilEmpty.string_of_uint (Nat.to_uint n).

End Text.
Import Text.

(** ** The patterns of the rule-based analyzer *)

Module Pattern.

(** The ASCII pattern [pat], in lower case, matches at the head of [s]
    under [/i]. *)
Fixpoint prefix_ci (pat s : string) : bool :=
  match pat, s with
  | EmptyString, _ => true
  | String _ _, EmptyString => false
  | String p pr, String c r => Ascii.eqb (fold_char c) p && prefix_ci pr r
  end.

Fixpoint drop (n : nat) (s : string) : string :=
  match n, s with
  | O, _ => s
  | S _, EmptyString => EmptyString
  | S m, String _ r => drop m r
  end.

(** [/pat/i.test(s)] *)
Fixpoint test_ci (pat s : string) : bool :=
  prefix_ci pat s
  || match s with
     | EmptyString => false
     | String _ r => test_ci pat r
     end.

(** [(s.match(/\bword\b/gi) || []).length] for a word of letters.  A match
    cannot begin inside another one (the code unit before it would be a word
    character), so the matches are the positions where one begins.
    [after_word] tells whether the code unit before [s] is a word character. *)
Fixpoint count_word (word : string) (after_word : bool) (s : string) : nat :=
  match s with
  | EmptyString => 0
  | String c r =>
      (if negb after_word && prefix_ci word s
          && negb (starts_with is_word (drop (String.length word) s))
       then 1 else 0)
      + count_word word (is_word c) r
  end.

(** [(s.match(/[.]{2,}/g) || []).length]: the maximal runs of at least two
    periods.  [after_period] tells whether the code unit before [s] is one. *)
Fixpoint count_period_runs (after_period : bool) (s : string) : nat :=
  match s with
  | EmptyString => 0
  | String c r =>
      (if is_period c && negb after_period && starts_with is_period r
       then 1 else 0)
      + count_period_runs (is_period c) r
  end.

(** [s.split(/\n\s*\n/).length - 1]: the matches of a line feed, white space
    and a last line feed, the white space taken greedily. *)
Inductive gap : Type :=
  | Outside      (* not after a line feed *)
  | AfterFeed    (* a line feed and white space without a second line feed *)
  | InBreak.     (* a match, still inside its run of white space *)

Fixpoint count_breaks (st : gap) (s : string) : nat :=
  match s with
  | EmptyString => 0
  | String c r =>
      match st with
      | Outside => count_breaks (if is_newline c then AfterFeed else Outside) r
      | AfterFeed =>
          if is_newline c then S (count_breaks InBreak r)
          else count_breaks (if is_space c then AfterFeed else Outside) r
      | InBreak => count_breaks (if is_space c then InBreak else Outside) r
      end
  end.

(** [s.includes(pat)] *)
Fixpoint prefix (pat s : string) : bool :=
  match pat, s with
  | EmptyString, _ => true
  | String _ _, EmptyString => false
  | String p pr, String c r => Ascii.eqb c p && prefix pr r
  end.

Fixpoint str_includes (s pat : string) : bool :=
  prefix pat s
  || match s with
     | EmptyString => false
     | String _ r => str_includes r pat
     end.

End Pattern.
Import Pattern.

(** ** Values, errors and outcomes *)

(** The errors a call can end with, after the taxonomy of the design:
    the retrieval service cannot be reached, the generative service cannot be
    reached (or its response has no text), the text of the response is not
    JSON ([JSON.parse] throws), and the [TypeError] of the language. *)
Inductive js_error : Type :=
  | RetrievalUnavailable
  | GenerativeUnavailable
  | MalformedResponse
  | TypeError.

Inductive outcome (A : Type) : Type :=
  | Return (a : A)
  | Throw (e : js_error).
Arguments Return {A} a.
Arguments Throw {A} e.

Definition bind {A B : Type} (m : outcome A) (k : A -> outcome B) : outcome B :=
  match m with
  | Return a => k a
  | Throw e => Throw e
  end.

Definition catch {A : Type} (m : outcome A) (handler : js_error -> outcome A) : outcome A :=
  match m with
  | Return a => Return a
  | Throw e => handler e
  end.

Notation "x <- m ;; k" := (bind m (fun x => k))
  (at level 61, m at next level, right associativity).

(** ** Document chunker *)

(** The two settings [chunkDocument] reads from the process environment,
    after [parseInt]; [None] stands for an unset variable or [NaN]. *)
Record Env : Type := {
  MAX_CHUNK_SIZE : option Z;
  CHUNK_OVERLAP : option Z
}.

(** [a || b] where [a] is [null], [NaN] or a number. *)
Definition or_else (a : option Z) (b : Z) : Z :=
  match a with
  | Some v => if (v =? 0)%Z then b else v
  | None => b
  end.

Definition strlen (s : string) : Z := Z.of_nat (String.length s).

Record ChunkState : Type := {
  chunks : list string;
  currentChunk : string;
  currentSize : Z
}.

Definition chunk_step (maxSize overlapSize : Z) (st : ChunkState) (sentence : string)
  : ChunkState :=
  let sentenceWithPeriod := trim sentence +++ "." in
  if ((currentSize st + strlen sentenceWithPeriod >? maxSize)%Z
      && (strlen (currentChunk st) >? 0)%Z)
  then
    let words := split_on is_space (currentChunk st) in
    let overlapWords := slice_from (- (overlapSize / 10))%Z words in
    let next := join " " overlapWords +++ " " +++ sentenceWithPeriod in
    {| chunks := chunks st ++ [trim (currentChunk st)];
       currentChunk := next;
       currentSize := strlen next |}
  else
    let next := currentChunk st +++ " " +++ sentenceWithPeriod in
    {| chunks := chunks st; currentChunk := next; currentSize := strlen next |}.

Definition chunk_flush (st : ChunkState) : list string :=
  if (strlen (trim (currentChunk st)) >? 0)%Z
  then chunks st ++ [trim (currentChunk st)]
  else chunks st.

Definition chunkDocument (env : Env) (content : string)
    (chunkSize overlap : option Z) : list string :=
  let maxSize := or_else chunkSize (or_else (MAX_CHUNK_SIZE env) 1000) in
  let overlapSize := or_else overlap (or_else (CHUNK_OVERLAP env) 200) in
  let sentences :=
    filter (fun s => (strlen (trim s) >? 0)%Z) (split_on is_terminal content) in
  let st := fold_left (chunk_step maxSize overlapSize) sentences
              {| chunks := []; currentChunk := ""; currentSize := 0 |} in
  filter (fun chunk => (strlen chunk >? 50)%Z) (chunk_flush st).

(** ** Keyword extractor *)

Definition commonWords : list string :=
  ["the"; "and"; "or"; "but"; "in"; "on"; "at"; "to"; "for"; "of"; "with"; "by";
   "a"; "an"; "is"; "are"; "was"; "were"; "be"; "been"; "being"; "have"; "has";
   "had"; "do"; "does"; "did"; "will"; "would"; "should"; "could"; "may";
   "might"; "must"; "shall"; "this"; "that"; "these"; "those"].

(** [xs.includes(x)] on strings *)
Definition includes (xs : list string) (x : string) : bool :=
  existsb (String.eqb x) xs.

(** [.replace(/[^\w\s]/g, ' ')] *)
Definition blank_punctuation (c : ascii) : ascii :=
  if is_word c || is_space c then c else " "%char.

(** The token stream: the [words] array of [extractKeywords]. *)
Definition keyword_tokens (text : string) : list string :=
  filter (fun word => (3 <? String.length word)%nat && negb (includes commonWords word))
         (split_on is_space (map_chars blank_punctuation (toLowerCase text))).

(** *** The frequency object

    [wordFreq] starts as [{}].  Its own properties are kept in creation
    order; what [Object.entries] makes of that order is [entries] below.
    A property holds what [(wordFreq[word] || 0) + 1] evaluates to: a number,
    or a string once the read went to a function of [Object.prototype]. *)
Inductive cell : Type :=
  | Num (n : Z)
  | Str (s : string).

Definition freq_object : Type := list (string * cell).

Fixpoint own_property (obj : freq_object) (k : string) : option cell :=
  match obj with
  | [] => None
  | (k', v) :: rest => if String.eqb k' k then Some v else own_property rest k
  end.

Fixpoint set_own (obj : freq_object) (k : string) (v : cell) : freq_object :=
  match obj with
  | [] => [(k, v)]
  | (k', v') :: rest =>
      if String.eqb k' k then (k', v) :: rest else (k', v') :: set_own rest k v
  end.

(** The function-valued properties of [Object.prototype], with the text that
    string concatenation makes of each. *)
Definition native (name : string) : string :=
  "function " +++ name +++ "() { [native code] }".

Definition prototype_functions : list (string * string) :=
  [("constructor", native "Object");
   ("hasOwnProperty", native "hasOwnProperty");
   ("isPrototypeOf", native "isPrototypeOf");
   ("propertyIsEnumerable", native "propertyIsEnumerable");
   ("toLocaleString", native "toLocaleString");
   ("toString", native "toString");
   ("valueOf", native "valueOf");
   ("__defineGetter__", native "__defineGetter__");
   ("__defineSetter__", native "__defineSetter__");
   ("__lookupGetter__", native "__lookupGetter__");
   ("__lookupSetter__", native "__lookupSetter__")].

Fixpoint assoc {B : Type} (k : string) (kvs : list (string * B)) : option B :=
  match kvs with
  | [] => None
  | (k', v) :: rest => if String.eqb k' k then Some v else assoc k rest
  end.

(** [wordFreq[word] = (wordFreq[word] || 0) + 1].  A read that misses the own
    properties goes to the prototype; the [__proto__] accessor yields an
    object, and its setter ignores the string the sum then is. *)
Definition bump (obj : freq_object) (word : string) : freq_object :=
  match own_property obj word with
  | Some (Num n) => set_own obj word (Num (n + 1))
  | Some (Str s) => set_own obj word (Str (s +++ "1"))
  | None =>
      match assoc word prototype_functions with
      | Some text => set_own obj word (Str (text +++ "1"))
      | None =>
          if String.eqb word "__proto__" then obj
          else set_own obj word (Num 1)
      end
  end.

Definition wordFreq (words : list string) : freq_object :=
  fold_left bump words [].

(** *** Property order

    A key that is a canonical array index (a decimal numeral without leading
    zero, at most 2^32 - 2) is enumerated before every other key, in
    ascending numeric order; the other keys follow in creation order. *)
Fixpoint digits_value (acc : N) (s : string) : option N :=
  match s with
  | EmptyString => Some acc
  | String c r =>
      if is_digit c then digits_value (10 * acc + (code c - 48))%N r else None
  end.

Definition index_value (k : string) : option N :=
  match k with
  | EmptyString => None
  | String c r =>
      if (code c =? 48)%N && negb (String.eqb r "") then None
      else match digits_value 0 k with
           | Some n => if (n <=? 4294967294)%N then Some n else None
           | None => None
           end
  end.

Definition is_index (k : string) : bool :=
  match index_value k with Some _ => true | None => false end.

Section InsertionSort.
Context {A : Type} (le : A -> A -> bool).

Fixpoint insert (x : A) (l : list A) : list A :=
  match l with
  | [] => [x]
  | y :: r => if le x y then x :: y :: r else y :: insert x r
  end.

(** A stable sort: an element stays before the later elements it ties with. *)
Fixpoint stable_sort (l : list A) : list A :=
  match l with
  | [] => []
  | x :: r => insert x (stable_sort r)
  end.
End InsertionSort.

Definition index_le (a b : string * cell) : bool :=
  match index_value (fst a), index_value (fst b) with
  | Some m, Some n => (m <=? n)%N
  | _, _ => true
  end.

(** [Object.entries(obj)] *)
Definition entries (obj : freq_object) : list (string * cell) :=
  stable_sort index_le (filter (fun e => is_index (fst e)) obj)
  ++ filter (fun e => negb (is_index (fst e))) obj.

(** *** Sorting by count

    The comparator [([,a], [,b]) => b - a]; [None] is [NaN], which
    [Array.prototype.sort] reads as [+0]. *)
Definition compare_counts (a b : cell) : option Z :=
  match a, b with
  | Num x, Num y => Some (y - x)%Z
  | _, _ => None
  end.

Definition count_le (x y : string * cell) : bool :=
  match compare_counts (snd x) (snd y) with
  | Some d => (d <=? 0)%Z
  | None => true
  end.

Definition is_num (e : string * cell) : bool :=
  match snd e with Num _ => true | Str _ => false end.

Definition same_count (e1 e2 : string * cell) : bool :=
  match snd e1, snd e2 with
  | Num x, Num y => (x =? y)%Z
  | _, _ => true
  end.

(** The comparator is consistent on the entries when every value is a number,
    or when all the numbers present are equal (every comparison is then 0). *)
Definition consistent_comparator (es : list (string * cell)) : bool :=
  forallb is_num es
  || forallb (fun e1 => forallb (same_count e1) es) es.

Section Engine.
(** Where the comparator is not consistent the language leaves the order
    that [sort] produces to the implementation: the embedding takes it as
    a parameter and nothing is assumed about it. *)
Variable implementation_defined_sort : list (string * cell) -> list (string * cell).

(** [.sort(([,a], [,b]) => b - a)] *)
Definition sort_by_count (es : list (string * cell)) : list (string * cell) :=
  if consistent_comparator es then stable_sort count_le es
  else implementation_defined_sort es.

(** [Object.entries(wordFreq).sort(...).slice(0, 50).map(([word]) => word)] *)
Definition extractKeywords (text : string) : list string :=
  map fst (firstn 50 (sort_by_count (entries (wordFreq (keyword_tokens text))))).

(** ** JavaScript values and the analysis result *)

(** The values that can reach a result: what [JSON.parse] returns, and
    [undefined] for a property that is absent.  An object lists its own
    properties in order. *)
#[local] Unset Elimination Schemes.
Inductive jsval : Type :=
  | VUndefined
  | VNull
  | VBool (b : bool)
  | VNum (q : Q)
  | VStr (s : string)
  | VArr (items : list jsval)
  | VObj (fields : list (string * jsval)).
#[local] Set Elimination Schemes.

Definition VInt (n : Z) : jsval := VNum (inject_Z n).
Definition VNat (n : nat) : jsval := VInt (Z.of_nat n).

(** An Issue: [{ type, severity, title, description }] *)
Definition Issue (type severity title description : string) : jsval :=
  VObj [("type", VStr type); ("severity", VStr severity);
        ("title", VStr title); ("description", VStr description)].

(** A Suggestion: [{ type, priority, title, description }] *)
Definition Suggestion (type priority title description : string) : jsval :=
  VObj [("type", VStr type); ("priority", VStr priority);
        ("title", VStr title); ("description", VStr description)].

Record AnalysisStats : Type := {
  wordCount : nat;
  characterCount : nat;
  sentenceCount : nat;
  paragraphCount : nat;
  aiAnalyzed : bool;
  ragUsed : bool
}.

(** The object literal that [performBasicAnalysis] and [performRAGAnalysis]
    return. *)
Record AnalysisResult : Type := {
  complianceScore : jsval;
  issues : list jsval;
  suggestions : list jsval;
  riskLevel : jsval;
  policiesAnalyzed : nat;
  analysis : AnalysisStats
}.

Record Policy : Type := {
  policy_id : string;
  name : string;
  filename : string;
  path : string;
  content : string;
  uploadDate : string;
  size : nat;
  keywords : list string
}.

Definition document_stats (documentText : string) (ai rag : bool) : AnalysisStats :=
  {| wordCount := List.length (split_on is_space documentText);
     characterCount := String.length documentText;
     sentenceCount := count_runs is_terminal documentText;
     paragraphCount := S (count_breaks Outside documentText);
     aiAnalyzed := ai;
     ragUsed := rag |}.

(** ** Rule-based analyzer *)

Record LanguageRule : Type := {
  pattern : string -> nat;      (* the number of matches of the pattern *)
  issue : string;
  suggestion : string;
  severity : string;
  penalty : Z
}.

Definition languageRules : list LanguageRule :=
  [ {| pattern := count_word "shall" false;
       issue := "Use of 'shall' - ambiguous legal term";
       suggestion := "Replace 'shall' with 'will', 'must', or 'agrees to' for clarity";
       severity := "low";
       penalty := 2 |};
    {| pattern := count_word "hereby" false;
       issue := "Unnecessary use of 'hereby'";
       suggestion := "Remove 'hereby' for cleaner, modern language";
       severity := "low";
       penalty := 1 |};
    {| pattern := count_period_runs false;
       issue := "Multiple consecutive periods";
       suggestion := "Use single periods for proper punctuation";
       severity := "medium";
       penalty := 2 |} ].

Record EssentialSection : Type := {
  section_name : string;
  patterns : list string;
  required : bool
}.

Definition parties_section : EssentialSection :=
  {| section_name := "Parties"; patterns := ["parties"; "party"]; required := true |}.
Definition term_section : EssentialSection :=
  {| section_name := "Term/Duration"; patterns := ["term"; "duration"; "expir"];
     required := true |}.
Definition termination_section : EssentialSection :=
  {| section_name := "Termination"; patterns := ["terminat"; "end"; "cancel"];
     required := true |}.

Definition essentialSections : list EssentialSection :=
  [parties_section; term_section; termination_section].

(** [section.patterns.some(pattern => pattern.test(documentText))] *)
Definition hasSection (section : EssentialSection) (documentText : string) : bool :=
  existsb (fun p => test_ci p documentText) (patterns section).

(** The three variables the loops of [performBasicAnalysis] update. *)
Record Tally : Type := {
  t_issues : list jsval;
  t_suggestions : list jsval;
  t_score : Z
}.

Definition language_step (documentText : string) (t : Tally) (rule : LanguageRule) : Tally :=
  let matches := pattern rule documentText in
  if (0 <? matches)%nat then
    {| t_issues := t_issues t ++
         [Issue "Language Issue" (severity rule) (issue rule)
                ("Found " +++ decimal matches +++ " instance(s)")];
       t_suggestions := t_suggestions t ++
         [Suggestion "Language Improvement"
                     (if String.eqb (severity rule) "high" then "high" else "medium")
                     (suggestion rule)
                     ("Apply to " +++ decimal matches +++ " instance(s)")];
       t_score := (t_score t - Z.min (Z.of_nat matches * penalty rule) 20)%Z |}
  else t.

Definition structure_step (documentText : string) (t : Tally) (section : EssentialSection) : Tally :=
  if negb (hasSection section documentText) && required section then
    {| t_issues := t_issues t ++
         [Issue "Structure Issue" "high"
                ("Missing " +++ section_name section +++ " section")
                ("Contract should include " +++ toLowerCase (section_name section)
                 +++ " information")];
       t_suggestions := t_suggestions t;
       t_score := (t_score t - 10)%Z |}
  else t.

(** The policy keywords, among the first ten, that no document keyword
    contains or is contained in. *)
Definition missing_keywords (documentText : string) (policy : Policy) : list string :=
  let docKeywords := extractKeywords documentText in
  let policyKeywords := keywords policy in
  filter (fun keyword =>
            negb (existsb (fun docKeyword =>
                             str_includes docKeyword keyword
                             || str_includes keyword docKeyword) docKeywords))
         (firstn 10 policyKeywords).

Definition policy_step (documentText : string) (t : Tally) (policy : Policy) : Tally :=
  let missingKeywords := missing_keywords documentText policy in
  if (0 <? List.length missingKeywords)%nat then
    {| t_issues := t_issues t ++
         [Issue "Policy Compliance" "high"
                ("Missing key terms from " +++ name policy)
                "Document may not comply with policy requirements"];
       t_suggestions := t_suggestions t ++
         [Suggestion "Policy Alignment" "high"
                     ("Add required terms from " +++ name policy)
                     ("Consider including: " +++ join ", " (firstn 3 missingKeywords))];
       t_score := (t_score t - Z.min (Z.of_nat (List.length missingKeywords) * 3) 15)%Z |}
  else t.

Definition basic_tally (documentText : string) (policies : list Policy) : Tally :=
  let t0 := {| t_issues := []; t_suggestions := []; t_score := 100 |} in
  let t1 := fold_left (language_step documentText) languageRules t0 in
  let t2 := fold_left (structure_step documentText) essentialSections t1 in
  fold_left (policy_step documentText) policies t2.

Definition performBasicAnalysis (documentText : string) (policies : list Policy)
  : AnalysisResult :=
  let t := basic_tally documentText policies in
  {| complianceScore := VInt (Z.max (t_score t) 0);
     issues := t_issues t;
     suggestions := firstn 20 (t_suggestions t);
     riskLevel := VStr (if (t_score t >=? 80)%Z then "Low"
                        else if (t_score t >=? 60)%Z then "Medium" else "High");
     policiesAnalyzed := List.length policies;
     analysis := document_stats documentText false false |}.

(** ** The two consumed capabilities *)

(** The metadata stored with a policy chunk by [addPolicyToChromaDB]. *)
Record ChunkMetadata : Type := {
  meta_policy_id : string;
  policy_name : string;
  chunk_index : nat;
  chunk_id : string;
  upload_date : string;
  total_chunks : nat
}.

(** One element of [allResults]: [{ document, metadata, distance }]. *)
Record RetrievedSnippet : Type := {
  document : string;
  metadata : ChunkMetadata;
  distance : Q
}.

(** [policyCollection.query({ queryTexts: [chunk], nResults, include })].
    The first argument numbers the queries of one analysis, so that the
    service may answer the same text differently or fail at any of them.
    A query throws, or yields the rows of [results.documents[0]] with their
    metadata and distance; [None] is a reply without [documents[0]]. *)
Definition RetrievalClient : Type :=
  nat -> string -> nat -> outcome (option (list RetrievedSnippet)).

(** [JSON.parse((await anthropic.messages.create({ ... })).content[0].text)]
    as a function of the prompt: the parsed value, [GenerativeUnavailable]
    when the request fails and [MalformedResponse] when the text is not JSON. *)
Definition GenerativeClient : Type := string -> outcome jsval.

(** ** Property reads, spreads and writes on a parsed reply *)

(** [v.key] for the keys read by the program, none of which a prototype
    defines: a read on [null] or [undefined] throws, an object yields its own
    property, any other value [undefined]. *)
Definition get_prop (v : jsval) (key : string) : outcome jsval :=
  match v with
  | VUndefined | VNull => Throw TypeError
  | VObj fields =>
      Return (match assoc key fields with Some x => x | None => VUndefined end)
  | _ => Return VUndefined
  end.

(** [...v] inside an array literal: an array yields its elements, a string its
    characters, and nothing else is iterable. *)
Definition spread (v : jsval) : outcome (list jsval) :=
  match v with
  | VArr items => Return items
  | VStr s => Return (map (fun c => VStr (String c EmptyString)) (list_ascii_of_string s))
  | _ => Throw TypeError
  end.

Fixpoint set_field (fields : list (string * jsval)) (key : string) (v : jsval)
  : list (string * jsval) :=
  match fields with
  | [] => [(key, v)]
  | (k, old) :: rest =>
      if String.eqb k key then (k, v) :: rest else (k, old) :: set_field rest key v
  end.

(** The value assigned by [performAIAnalysis]. *)
Definition ai_flags : jsval :=
  VObj [("aiAnalyzed", VBool true); ("ragUsed", VBool false)].

(** [result.analysis = { aiAnalyzed: true, ragUsed: false }]: an object takes
    the property and [null] throws.  An array takes it too, beside its
    elements, which [spread_fields] below accounts for; on a string, a number
    or a boolean the write has no effect (the module is not in strict mode). *)
Definition assign_analysis (result : jsval) : outcome jsval :=
  match result with
  | VUndefined | VNull => Throw TypeError
  | VObj fields => Return (VObj (set_field fields "analysis" ai_flags))
  | other => Return other
  end.

(** ** Prompts *)

Definition nl : string := String (ascii_of_nat 10) EmptyString.
Definition quoted (s : string) : string :=
  String (ascii_of_nat 34) EmptyString +++ s +++ String (ascii_of_nat 34) EmptyString.

Definition schema_lines : list string :=
  [ "Provide analysis in JSON format:";
    "{";
    "  " +++ quoted "complianceScore" +++ ": <number 0-100>,";
    "  " +++ quoted "riskLevel" +++ ": " +++ quoted "<Low/Medium/High>" +++ ",";
    "  " +++ quoted "issues" +++ ": [";
    "    {";
    "      " +++ quoted "type" +++ ": " +++ quoted "<string>" +++ ",";
    "      " +++ quoted "severity" +++ ": " +++ quoted "<low/medium/high>" +++ ",";
    "      " +++ quoted "title" +++ ": " +++ quoted "<string>" +++ ",";
    "      " +++ quoted "description" +++ ": " +++ quoted "<string>";
    "    }";
    "  ],";
    "  " +++ quoted "suggestions" +++ ": [";
    "    {";
    "      " +++ quoted "type" +++ ": " +++ quoted "<string>" +++ ",";
    "      " +++ quoted "priority" +++ ": " +++ quoted "<low/medium/high>" +++ ",";
    "      " +++ quoted "title" +++ ": " +++ quoted "<string>" +++ ",";
    "      " +++ quoted "description" +++ ": " +++ quoted "<string>";
    "    }";
    "  ]";
    "}" ].

Definition rag_prompt (policyContext documentText : string) : string :=
  join nl
    ([ "You are a legal compliance expert. Analyze this contract for policy compliance and provide improvement suggestions.";
       "";
       "POLICY CONTEXT:";
       policyContext;
       "";
       "DOCUMENT TO ANALYZE:";
       documentText;
       "" ] ++ schema_lines).

Definition ai_prompt (policyContext documentText : string) : string :=
  join nl
    ([ "You are a legal compliance expert. Analyze this contract and provide improvement suggestions.";
       "";
       "AVAILABLE POLICIES:";
       policyContext;
       "";
       "DOCUMENT TO ANALYZE:";
       documentText;
       "" ] ++ schema_lines).

(** ** Retrieval-augmented tier *)

Definition distance_le (a b : RetrievedSnippet) : bool :=
  Qle_bool (distance a) (distance b).

(** [Math.ceil(topK / 3)] *)
Definition ceil_third (topK : nat) : nat := (topK + 2) / 3.

(** One turn of the [for] loop over the first three chunks. *)
Definition query_step (policyCollection : RetrievalClient) (topK : nat)
    (acc : outcome (list RetrievedSnippet)) (numbered : nat * string)
  : outcome (list RetrievedSnippet) :=
  allResults <- acc ;;
  results <- policyCollection (fst numbered) (snd numbered) (ceil_third topK) ;;
  Return (match results with
          | Some rows => allResults ++ rows
          | None => allResults
          end).

Definition number {A : Type} (xs : list A) : list (nat * A) :=
  combine (seq 0 (List.length xs)) xs.

(** The [try] block of [retrieveRelevantPolicies]. *)
Definition retrieve_attempt (env : Env) (policyCollection : RetrievalClient)
    (documentText : string) (topK : nat) : outcome (list RetrievedSnippet) :=
  let docChunks := chunkDocument env documentText None None in
  allResults <- fold_left (query_step policyCollection topK)
                  (number (firstn 3 docChunks)) (Return []) ;;
  Return (firstn topK (stable_sort distance_le allResults)).

(** [retrieveRelevantPolicies(documentText, topK = 10)]: its [catch] returns
    the empty array. *)
Definition retrieveRelevantPolicies (env : Env) (policyCollection : RetrievalClient)
    (documentText : string) (topK : nat) : outcome (list RetrievedSnippet) :=
  catch (retrieve_attempt env policyCollection documentText topK)
        (fun _ => Return []).

(** The object returned by the [catch] of [analyzeWithClaude]. *)
Definition degraded_analysis : jsval :=
  VObj [ ("complianceScore", VInt 60);
         ("riskLevel", VStr "Medium");
         ("issues", VArr [Issue "Analysis Error" "medium" "AI analysis unavailable"
                                "Using basic analysis only"]);
         ("suggestions", VArr [Suggestion "General" "medium" "Manual review recommended"
                                 "Please have document reviewed by legal counsel"]) ].

(** The [policyContext] of [analyzeWithClaude]. *)
Definition rag_context (relevantPolicies : list RetrievedSnippet) : string :=
  join (nl +++ nl)
       (map (fun p => "Policy: " +++ policy_name (metadata p) +++ nl
                      +++ "Section: " +++ document p) relevantPolicies).

Definition analyzeWithClaude (anthropic : GenerativeClient) (documentText : string)
    (relevantPolicies : list RetrievedSnippet) : outcome jsval :=
  catch (anthropic (rag_prompt (rag_context relevantPolicies) documentText))
        (fun _ => Return degraded_analysis).

(** The object literal that [performRAGAnalysis] returns. *)
Definition merge_analyses (documentText : string)
    (relevantPolicies : list RetrievedSnippet) (claudeAnalysis : jsval)
    (basicAnalysis : AnalysisResult) : outcome AnalysisResult :=
  score <- get_prop claudeAnalysis "complianceScore" ;;
  claudeIssues <- (v <- get_prop claudeAnalysis "issues" ;; spread v) ;;
  claudeSuggestions <- (v <- get_prop claudeAnalysis "suggestions" ;; spread v) ;;
  risk <- get_prop claudeAnalysis "riskLevel" ;;
  Return {| complianceScore := score;
            issues := claudeIssues ++ issues basicAnalysis;
            suggestions := firstn 25 (claudeSuggestions ++ suggestions basicAnalysis);
            riskLevel := risk;
            policiesAnalyzed := List.length relevantPolicies;
            analysis := document_stats documentText true true |}.

Definition performRAGAnalysis (env : Env) (policyCollection : RetrievalClient)
    (anthropic : GenerativeClient) (documentText : string) : outcome AnalysisResult :=
  catch
    (relevantPolicies <- retrieveRelevantPolicies env policyCollection documentText 10 ;;
     claudeAnalysis <- analyzeWithClaude anthropic documentText relevantPolicies ;;
     let basicAnalysis := performBasicAnalysis documentText [] in
     merge_analyses documentText relevantPolicies claudeAnalysis basicAnalysis)
    (fun error => Throw error).

(** ** Generative-only tier *)

(** The [policyContext] of [performAIAnalysis]. *)
Definition ai_context (policies : list Policy) : string :=
  join nl (map (fun p => "Policy: " +++ name p +++ nl
                         +++ "Keywords: " +++ join ", " (keywords p)) policies).

Definition performAIAnalysis (anthropic : GenerativeClient) (documentText : string)
    (policies : list Policy) : outcome jsval :=
  catch
    (result <- anthropic (ai_prompt (ai_context policies) documentText) ;;
     assign_analysis result)
    (fun error => Throw error).

(** ** Degradation controller *)

(** What [performEnhancedAnalysis] returns: an object literal assembled by
    the program, or the parsed reply of the generative-only tier. *)
Inductive Analysis : Type :=
  | Built (r : AnalysisResult)
  | Reply (v : jsval).

(** The [try] block: [Some] when one of the two [return]s is reached, [None]
    when neither branch applies. *)
Definition enhanced_attempt (env : Env) (policyCollection : option RetrievalClient)
    (anthropic : option GenerativeClient) (documentText : string)
    (policies : list Policy) : outcome (option Analysis) :=
  match policyCollection, anthropic with
  | Some collection, Some client =>
      r <- performRAGAnalysis env collection client documentText ;;
      Return (Some (Built r))
  | None, Some client =>
      v <- performAIAnalysis client documentText policies ;;
      Return (Some (Reply v))
  | _, None => Return None
  end.

(** The [options] argument is accepted by every tier and read by none. *)
Definition performEnhancedAnalysis (env : Env) (policyCollection : option RetrievalClient)
    (anthropic : option GenerativeClient) (documentText : string)
    (policies : list Policy) : outcome Analysis :=
  attempt <- catch (enhanced_attempt env policyCollection anthropic documentText policies)
                   (fun _ => Return None) ;;
  match attempt with
  | Some result => Return result
  | None => Return (Built (performBasicAnalysis documentText policies))
  end.

(** ** Result history and the endpoints that use it *)

(** A stored result: [{ id, analysisDate, documentLength, wordCount,
    ...analysisResult }]. *)
Record StoredResult : Type := {
  id : string;
  analysisDate : string;
  documentLength : nat;
  stored_wordCount : nat;
  body : Analysis
}.

Definition stats_value (a : AnalysisStats) : jsval :=
  VObj [ ("wordCount", VNat (wordCount a));
         ("characterCount", VNat (characterCount a));
         ("sentenceCount", VNat (sentenceCount a));
         ("paragraphCount", VNat (paragraphCount a));
         ("aiAnalyzed", VBool (aiAnalyzed a));
         ("ragUsed", VBool (ragUsed a)) ].

(** The properties that [...analysisResult] copies into the stored object,
    those named by an array index left out (an array or a string reply has
    them, and no report key is one). *)
Definition spread_fields (a : Analysis) : list (string * jsval) :=
  match a with
  | Built r =>
      [ ("complianceScore", complianceScore r);
        ("issues", VArr (issues r));
        ("suggestions", VArr (suggestions r));
        ("riskLevel", riskLevel r);
        ("policiesAnalyzed", VNat (policiesAnalyzed r));
        ("analysis", stats_value (analysis r)) ]
  | Reply (VObj fields) => fields
  | Reply (VArr _) => [("analysis", ai_flags)]
  | Reply _ => []
  end.

(** [analysisResult.key] as the caller of the controller reads it. *)
Definition analysis_prop (a : Analysis) (key : string) : jsval :=
  match assoc key (spread_fields a) with
  | Some v => v
  | None => VUndefined
  end.

(** [result.key] for a key that is not an array index: a spread property
    shadows the four leading ones. *)
Definition stored_prop (result : StoredResult) (key : string) : jsval :=
  match assoc key (spread_fields (body result)) with
  | Some v => v
  | None =>
      if String.eqb key "id" then VStr (id result)
      else if String.eqb key "analysisDate" then VStr (analysisDate result)
      else if String.eqb key "documentLength" then VNat (documentLength result)
      else if String.eqb key "wordCount" then VNat (stored_wordCount result)
      else VUndefined
  end.

(** [analysisResults.push(result)] followed by the cut to the last 100. *)
Definition store_result (analysisResults : list StoredResult) (result : StoredResult)
  : list StoredResult :=
  let pushed := analysisResults ++ [result] in
  if (100 <? List.length pushed)%nat then slice_from (-100) pushed else pushed.

(** The state of the server that the analysis endpoint reads and writes. *)
Record Server : Type := {
  policies : list Policy;
  analysisResults : list StoredResult
}.

Inductive Response : Type :=
  | BadRequest (message : string)
  | Success (result : StoredResult)
  | ServerError (e : js_error).

(** [POST /api/analyze]; [newId] and [now] are what [generateId()] and
    [new Date().toISOString()] yield during the request. *)
Definition post_analyze (env : Env) (policyCollection : option RetrievalClient)
    (anthropic : option GenerativeClient) (newId now : string)
    (server : Server) (documentText : string) : Response * Server :=
  if String.eqb documentText "" then (BadRequest "Invalid input", server)
  else if (List.length (policies server) =? 0)%nat then
    (BadRequest "No policies uploaded. Please upload policy documents first.", server)
  else
    match performEnhancedAnalysis env policyCollection anthropic documentText
            (policies server) with
    | Return analysisResult =>
        let result := {| id := newId;
                         analysisDate := now;
                         documentLength := String.length documentText;
                         stored_wordCount := List.length (split_on is_space documentText);
                         body := analysisResult |} in
        (Success result,
         {| policies := policies server;
            analysisResults := store_result (analysisResults server) result |})
    | Throw e => (ServerError e, server)
    end.

(** [v ? v.length : 0] *)
Definition length_or_zero (v : jsval) : jsval :=
  match v with
  | VArr items => VNat (List.length items)
  | VStr s => VNat (String.length s)
  | VObj fields => match assoc "length" fields with Some n => n | None => VUndefined end
  | VBool true => VUndefined
  | VNum q => if Qeq_bool q 0 then VInt 0 else VUndefined
  | VUndefined | VNull | VBool false => VInt 0
  end.

Record Summary : Type := {
  summary_id : jsval;
  summary_analysisDate : jsval;
  summary_complianceScore : jsval;
  issueCount : jsval;
  suggestionCount : jsval;
  summary_wordCount : jsval;
  summary_riskLevel : jsval
}.

Definition summarize (result : StoredResult) : Summary :=
  {| summary_id := stored_prop result "id";
     summary_analysisDate := stored_prop result "analysisDate";
     summary_complianceScore := stored_prop result "complianceScore";
     issueCount := length_or_zero (stored_prop result "issues");
     suggestionCount := length_or_zero (stored_prop result "suggestions");
     summary_wordCount := stored_prop result "wordCount";
     summary_riskLevel := stored_prop result "riskLevel" |}.

(** [GET /api/results] *)
Definition get_results (analysisResults : list StoredResult) : list Summary :=
  map summarize analysisResults.

(** [GET /api/results/:id] *)
Definition get_result (analysisResults : list StoredResult) (wanted : string)
  : option StoredResult :=
  find (fun r => match stored_prop r "id" with
                 | VStr s => String.eqb s wanted
                 | _ => false
                 end) analysisResults.

(** ** Grammar check *)

(** The length of the longest prefix of [s] whose code units satisfy [p]. *)
Fixpoint run_length (p : ascii -> bool) (s : string) : nat :=
  match s with
  | EmptyString => 0
  | String c r => if p c then S (run_length p r) else 0
  end.

(** [s.substring(0, n)] *)
Fixpoint take (n : nat) (s : string) : string :=
  match n, s with
  | O, _ => EmptyString
  | S _, EmptyString => EmptyString
  | S m, String c r => String c (take m r)
  end.

(** [[,.;:!?]] *)
Definition is_punctuation (c : ascii) : bool :=
  (code c =? 44)%N || (code c =? 46)%N || (code c =? 59)%N
  || (code c =? 58)%N || (code c =? 33)%N || (code c =? 63)%N.

(** [[a-zA-Z]] *)
Definition is_letter (c : ascii) : bool := is_lower c || is_upper c.

(** The four patterns, each as the length of its match at the head of the
    rest of the text, if it matches there.  None of them looks behind. *)

(** [/\s{2,}/] *)
Definition spaces_match (s : string) : option nat :=
  let n := run_length is_space s in
  if (2 <=? n)%nat then Some n else None.

(** [/([a-z])([A-Z])/] *)
Definition joined_words_match (s : string) : option nat :=
  match s with
  | String a (String b _) => if is_lower a && is_upper b then Some 2 else None
  | _ => None
  end.

(** [/\s+([,.;:!?])/]: the white space is a maximal run, since the mark that
    follows it is no white space. *)
Definition space_before_mark_match (s : string) : option nat :=
  let n := run_length is_space s in
  if (1 <=? n)%nat && starts_with is_punctuation (drop n s) then Some (S n) else None.

(** [/([.!?])([a-zA-Z])/] *)
Definition missing_space_match (s : string) : option nat :=
  match s with
  | String a (String b _) => if is_terminal a && is_letter b then Some 2 else None
  | _ => None
  end.

(** [[...text.matchAll(pattern)]] as pairs of [match.index] and [match[0]]:
    the text is gone through from the left; after a match the search goes on
    behind it.  [skip] counts the code units of the last match that are still
    ahead, [pos] is the index of the head of [s] in the text. *)
Fixpoint matchAll (pattern : string -> option nat) (skip pos : nat) (s : string)
  : list (nat * string) :=
  match s with
  | EmptyString => []
  | String _ r =>
      match skip with
      | S k => matchAll pattern k (S pos) r
      | O =>
          match pattern s with
          | Some n => (pos, take n s) :: matchAll pattern (n - 1) (S pos) r
          | None => matchAll pattern 0 (S pos) r
          end
      end
  end.

Record GrammarRule : Type := {
  gr_pattern : string -> option nat;
  gr_issue : string;
  gr_suggestion : string;
  gr_category : string;
  gr_severity : string
}.

Definition grammarRules : list GrammarRule :=
  [ {| gr_pattern := spaces_match;
       gr_issue := "Multiple consecutive spaces";
       gr_suggestion := "Use single spaces between words";
       gr_category := "formatting";
       gr_severity := "low" |};
    {| gr_pattern := joined_words_match;
       gr_issue := "Missing space between words";
       gr_suggestion := "Add space between words";
       gr_category := "formatting";
       gr_severity := "medium" |};
    {| gr_pattern := space_before_mark_match;
       gr_issue := "Space before punctuation";
       gr_suggestion := "Remove space before punctuation marks";
       gr_category := "punctuation";
       gr_severity := "low" |};
    {| gr_pattern := missing_space_match;
       gr_issue := "Missing space after sentence-ending punctuation";
       gr_suggestion := "Add space after sentence-ending punctuation";
       gr_category := "punctuation";
       gr_severity := "medium" |} ].

(** An element of [grammarIssues]: [{ id, position, length, issue, suggestion,
    text, severity, category }]. *)
Record GrammarIssue : Type := {
  gi_id : string;
  gi_position : nat;
  gi_length : nat;
  gi_issue : string;
  gi_suggestion : string;
  gi_text : string;
  gi_severity : string;
  gi_category : string
}.

(** The issue pushed for the match numbered [matchIndex] of the rule numbered
    [ruleIndex]. *)
Definition grammar_issue (ruleIndex : nat) (rule : GrammarRule)
    (numbered_match : nat * (nat * string)) : GrammarIssue :=
  let matchIndex := fst numbered_match in
  let index := fst (snd numbered_match) in
  let matched := snd (snd numbered_match) in
  {| gi_id := "basic_" +++ decimal ruleIndex +++ "_" +++ decimal matchIndex
              +++ "_" +++ decimal index;
     gi_position := index;
     gi_length := String.length matched;
     gi_issue := gr_issue rule;
     gi_suggestion := gr_suggestion rule;
     gi_text := matched;
     gi_severity := gr_severity rule;
     gi_category := gr_category rule |}.

(** The issues of one rule, in the order of its matches. *)
Definition rule_issues (text : string) (numbered_rule : nat * GrammarRule)
  : list GrammarIssue :=
  map (grammar_issue (fst numbered_rule) (snd numbered_rule))
      (number (matchAll (gr_pattern (snd numbered_rule)) 0 0 text)).

Definition checkGrammarBasic (text : string) : list GrammarIssue :=
  firstn 50 (concat (map (rule_issues text) (number grammarRules))).

(** [x || y] takes [y] when [x] is one of these. *)
Definition falsy (v : jsval) : bool :=
  match v with
  | VUndefined | VNull | VBool false => true
  | VNum q => Qeq_bool q 0
  | VStr s => String.eqb s ""
  | _ => false
  end.

Definition grammar_prompt (text : string) : string :=
  join nl
    [ "Analyze this text for grammar, spelling, and style issues. Return JSON:";
      "{";
      "  " +++ quoted "issues" +++ ": [";
      "    {";
      "      " +++ quoted "position" +++ ": <number>,";
      "      " +++ quoted "length" +++ ": <number>,";
      "      " +++ quoted "issue" +++ ": " +++ quoted "<description>" +++ ",";
      "      " +++ quoted "suggestion" +++ ": " +++ quoted "<correction>" +++ ",";
      "      " +++ quoted "severity" +++ ": " +++ quoted "<low/medium/high>" +++ ",";
      "      " +++ quoted "category" +++ ": "
        +++ quoted "<grammar/spelling/punctuation/style>";
      "    }";
      "  ]";
      "}";
      "";
      "TEXT: " +++ text ].

(** What [performAdvancedGrammarCheck] returns: the issues of the basic
    check, or what the reply of the generative client carries as [issues]. *)
Inductive GrammarResult : Type :=
  | BasicIssues (found : list GrammarIssue)
  | ReplyIssues (v : jsval).

Definition performAdvancedGrammarCheck (anthropic : option GenerativeClient)
    (text : string) : outcome GrammarResult :=
  catch
    (match anthropic with
     | None => Return (BasicIssues (checkGrammarBasic text))
     | Some client =>
         result <- client (grammar_prompt text) ;;
         found <- get_prop result "issues" ;;
         Return (ReplyIssues (if falsy found then VArr [] else found))
     end)
    (fun _ => Return (BasicIssues (checkGrammarBasic text))).

(** ** Policy management *)

(** The arguments of [policyCollection.add]. *)
Record ChromaBatch : Type := {
  batch_documents : list string;
  batch_metadatas : list ChunkMetadata;
  batch_ids : list string
}.

Definition chunk_metadata (policy : Policy) (total : nat) (numbered : nat * string)
  : ChunkMetadata :=
  {| meta_policy_id := policy_id policy;
     policy_name := name policy;
     chunk_index := fst numbered;
     chunk_id := policy_id policy +++ "_chunk_" +++ decimal (fst numbered);
     upload_date := uploadDate policy;
     total_chunks := total |}.

(** The three arrays that [addPolicyToChromaDB] fills from the chunks. *)
Definition chroma_batch (policy : Policy) (chunks : list string) : ChromaBatch :=
  {| batch_documents := map snd (number chunks);
     batch_metadatas := map (chunk_metadata policy (List.length chunks)) (number chunks);
     batch_ids := map (fun numbered => policy_id policy +++ "_chunk_"
                                       +++ decimal (fst numbered)) (number chunks) |}.

(** A file of [req.files], with what the request meets while the file is
    processed: the text [fs.readFile] yields ([None] when it fails) and the
    values of [generateId()] and [new Date().toISOString()]. *)
Record UploadedFile : Type := {
  originalname : string;
  upload_filename : string;
  upload_path : string;
  upload_size : nat;
  read_text : option string;
  generated_id : string;
  read_date : string
}.

(** An element of the [policies] array in the responses. *)
Record PolicySummary : Type := {
  summary_policy_id : string;
  summary_name : string;
  summary_uploadDate : string;
  summary_size : nat;
  keywordCount : nat
}.

Definition policy_summary (policy : Policy) : PolicySummary :=
  {| summary_policy_id := policy_id policy;
     summary_name := name policy;
     summary_uploadDate := uploadDate policy;
     summary_size := size policy;
     keywordCount := List.length (keywords policy) |}.

(** The policy object built for a file whose text was read. *)
Definition new_policy (file : UploadedFile) (text : string) : Policy :=
  {| policy_id := generated_id file;
     name := originalname file;
     filename := upload_filename file;
     path := upload_path file;
     content := text;
     uploadDate := read_date file;
     size := upload_size file;
     keywords := extractKeywords text |}.

(** The three arrays the upload loop extends: the policies of the server,
    the batches handed to the vector store, and the summaries of the
    response. *)
Record UploadState : Type := {
  up_policies : list Policy;
  up_batches : list ChromaBatch;
  up_uploaded : list PolicySummary
}.

(** One turn of the loop over [req.files]; [vectorStore] tells whether
    [policyCollection] is set.  A file that cannot be read is passed over. *)
Definition upload_step (env : Env) (vectorStore : bool) (st : UploadState)
    (file : UploadedFile) : UploadState :=
  match read_text file with
  | None => st
  | Some text =>
      let policy := new_policy file text in
      {| up_policies := up_policies st ++ [policy];
         up_batches :=
           if vectorStore
           then up_batches st ++ [chroma_batch policy (chunkDocument env text None None)]
           else up_batches st;
         up_uploaded := up_uploaded st ++ [policy_summary policy] |}
  end.

Inductive UploadResponse : Type :=
  | NoFiles
  | Uploaded (uploadedPolicies : list PolicySummary).

(** [POST /api/policies/upload]: the response, the policies of the server
    afterwards, and the batches handed to the vector store. *)
Definition post_policies_upload (env : Env) (vectorStore : bool)
    (policies : list Policy) (files : list UploadedFile)
  : UploadResponse * list Policy * list ChromaBatch :=
  match files with
  | [] => (NoFiles, policies, [])
  | _ =>
      let st := fold_left (upload_step env vectorStore) files
                  {| up_policies := policies; up_batches := []; up_uploaded := [] |} in
      (Uploaded (up_uploaded st), up_policies st, up_batches st)
  end.

(** [GET /api/policies] *)
Definition get_policies (policies : list Policy) : list PolicySummary :=
  map policy_summary policies.

(** [xs.findIndex(p)], [None] for -1 *)
Fixpoint findIndex {A : Type} (p : A -> bool) (xs : list A) : option nat :=
  match xs with
  | [] => None
  | x :: rest =>
      if p x then Some 0
      else match findIndex p rest with
           | Some i => Some (S i)
           | None => None
           end
  end.

(** [xs.splice(i, 1)] for an index inside the array: what is left. *)
Definition splice_one {A : Type} (i : nat) (xs : list A) : list A :=
  firstn i xs ++ skipn (S i) xs.

Inductive DeleteResponse : Type :=
  | PolicyNotFound
  | PolicyDeleted.

(** [DELETE /api/policies/:id]; the removals from the vector store and from
    the disk are attempted and their failures only logged. *)
Definition delete_policy (policies : list Policy) (policyId : string)
  : DeleteResponse * list Policy :=
  match findIndex (fun p => String.eqb (policy_id p) policyId) policies with
  | None => (PolicyNotFound, policies)
  | Some policyIndex => (PolicyDeleted, splice_one policyIndex policies)
  end.

(** ** Sample inputs *)

Definition default_env : Env := {| MAX_CHUNK_SIZE := None; CHUNK_OVERLAP := None |}.

(** A contract text of one chunk: [shall] three times, the words [parties]
    and [term], and nothing of a termination clause. *)
Definition sample_contract : string :=
  "The parties agree the term is one year. Seller shall deliver. Buyer SHALL pay; and shall, by law, insure.".

Definition sample_policy : Policy :=
  {| policy_id := "k3j9x0q2lmn8p4r7";
     name := "delivery-policy.txt";
     filename := "1700000000000_delivery-policy.txt";
     path := "uploads/policies/1700000000000_delivery-policy.txt";
     content := "Delivery requires insurance. Payment within thirty days.";
     uploadDate := "2024-01-01T00:00:00.000Z";
     size := 56;
     keywords := ["delivery"; "requires"; "insurance"; "payment"; "within"; "thirty"; "days"] |}.

(** A policy whose single keyword no keyword of the empty document covers. *)
Definition uncovered_policy : Policy :=
  {| policy_id := "p"; name := "policy.txt"; filename := "policy.txt";
     path := "uploads/policies/policy.txt"; content := "confidentiality";
     uploadDate := "2024-01-01T00:00:00.000Z"; size := 15;
     keywords := ["confidentiality"] |}.

Definition sample_snippet : RetrievedSnippet :=
  {| document := "Delivery requires insurance.";
     metadata := {| meta_policy_id := "k3j9x0q2lmn8p4r7";
                    policy_name := "delivery-policy.txt";
                    chunk_index := 0;
                    chunk_id := "k3j9x0q2lmn8p4r7_chunk_0";
                    upload_date := "2024-01-01T00:00:00.000Z";
                    total_chunks := 1 |};
     distance := 1 # 4 |}.

(** Retrieval services: one that cannot be reached, one that finds nothing,
    one that answers every query with the same row. *)
Definition retrieval_down : RetrievalClient := fun _ _ _ => Throw RetrievalUnavailable.
Definition retrieval_empty : RetrievalClient := fun _ _ _ => Return (Some []).
Definition retrieval_one : RetrievalClient := fun _ _ _ => Return (Some [sample_snippet]).

(** Generative services: one that cannot be reached, one whose text is not
    JSON, and one that replies with a given value. *)
Definition client_down : GenerativeClient := fun _ => Throw GenerativeUnavailable.
Definition client_not_json : GenerativeClient := fun _ => Throw MalformedResponse.
Definition client_replying (reply : jsval) : GenerativeClient := fun _ => Return reply.

Definition reply_of (score : Z) (risk : string) : jsval :=
  VObj [ ("complianceScore", VInt score); ("riskLevel", VStr risk);
         ("issues", VArr []); ("suggestions", VArr []) ].

(** An engine whose [sort] leaves an array it cannot order as it is. *)
Definition engine_leaves_order (es : list (string * cell)) : list (string * cell) := es.

Definition numbered_result (n : nat) : StoredResult :=
  {| id := "r" +++ decimal n;
     analysisDate := "2024-01-01T00:00:00.000Z";
     documentLength := 114;
     stored_wordCount := 20;
     body := Reply (VObj [("complianceScore", VNat n); ("riskLevel", VStr "Low")]) |}.

Definition results_1_to_150 : list StoredResult := map numbered_result (seq 1 150).

(** ** Vocabulary of the properties *)

(** A string that [trim] leaves as it is. *)
Definition trimmed (chunk : string) : Prop := trim chunk = chunk.

(** The history after a sequence of stored results, from the empty array the
    server starts with. *)
Definition history (results : list StoredResult) : list StoredResult :=
  fold_left store_result results [].

(** The conditions under which each of the three loops adds an issue. *)
Definition rule_fires (documentText : string) (rule : LanguageRule) : bool :=
  (0 <? pattern rule documentText)%nat.

Definition section_missing (documentText : string) (section : EssentialSection) : bool :=
  negb (hasSection section documentText) && required section.

Definition policy_uncovered (documentText : string) (policy : Policy) : bool :=
  (0 <? List.length (missing_keywords documentText policy))%nat.

(** The threshold function of the data model. *)
Definition risk_for (score : Z) : string :=
  if (80 <=? score)%Z then "Low" else if (60 <=? score)%Z then "Medium" else "High".

(** A score that is an integer of [0, 100] with the risk level its
    threshold function gives. *)
Definition well_scored (score risk : jsval) : Prop :=
  exists (q : Q) (n : Z),
    score = VNum q /\ Qeq q (inject_Z n) /\ (0 <= n <= 100)%Z
    /\ risk = VStr (risk_for n).

(** [v.key] where the read cannot throw. *)
Definition value_prop (v : jsval) (key : string) : jsval :=
  match v with
  | VObj fields => match assoc key fields with Some x => x | None => VUndefined end
  | _ => VUndefined
  end.

(** The order a stable sort produces from the comparison [le] and the order
    [before] of its input: strictly first by the comparison, or tied and
    earlier in the input. *)
Definition sorted_order {A : Type} (le : A -> A -> bool) (before : A -> A -> Prop)
    (a b : A) : Prop :=
  le b a = false \/ (le a b = true /\ le b a = true /\ before a b).

(** The number of times a word occurs in the token stream. *)
Definition frequency (words : list string) (w : string) : nat :=
  count_occ string_dec words w.

(** [a] is met, going through the stream, before any [b] is. *)
Fixpoint occurs_before (a b : string) (words : list string) : bool :=
  match words with
  | [] => false
  | w :: rest =>
      if String.eqb w a then negb (String.eqb w b)
      else if String.eqb w b then false
      else occurs_before a b rest
  end.

(** A word that is not the name of a function of [Object.prototype]. *)
Definition ordinary (w : string) : Prop := assoc w prototype_functions = None.

(** What [wordFreq] holds under a key for a stream of ordinary words: the
    number of its occurrences, and nothing for a word that does not occur or
    for [__proto__]. *)
Definition counted (words : list string) (k : string) : option cell :=
  if (0 <? frequency words k)%nat && negb (String.eqb k "__proto__")
  then Some (Num (Z.of_nat (frequency words k))) else None.

(** Every code unit of [s] satisfies [p]. *)
Fixpoint all_chars (p : ascii -> bool) (s : string) : bool :=
  match s with
  | EmptyString => true
  | String c r => p c && all_chars p r
  end.

(** [[a-z0-9_]] *)
Definition plain (c : ascii) : bool := is_lower c || is_digit c || (code c =? 95)%N.

(** The order in which [Object.entries] lists two keys: array indices first,
    by value, then the other keys by first occurrence. *)
Definition key_before (words : list string) (a b : string) : Prop :=
  match index_value a, index_value b with
  | Some m, Some n => (m <= n)%N
  | Some _, None => True
  | None, Some _ => False
  | None, None => occurs_before a b words = true
  end.

(** The order of the result: by falling frequency, and by [key_before] among
    keywords of one frequency. *)
Definition keyword_order (words : list string) (a b : string) : Prop :=
  frequency words b < frequency words a
  \/ (frequency words a = frequency words b /\ key_before words a b).

(** The last code unit of [s] satisfies [p]. *)
Fixpoint ends_with (p : ascii -> bool) (s : string) : bool :=
  match s with
  | EmptyString => false
  | String c EmptyString => p c
  | String _ r => ends_with p r
  end.

(** [[!?]] *)
Definition is_mark (c : ascii) : bool := (code c =? 33)%N || (code c =? 63)%N.

(** The [sentences] array of [chunkDocument]. *)
Definition sentences_of (content : string) : list string :=
  filter (fun s => (strlen (trim s) >? 0)%Z) (split_on is_terminal content).

(** The sentences of a text, trimmed, each closed by a period, with single
    spaces between them. *)
Definition normalized_text (content : string) : string :=
  join " " (map (fun s => trim s +++ ".") (sentences_of content)).

(** The [maxSize] of [chunkDocument]. *)
Definition chunk_limit (env : Env) (chunkSize : option Z) : Z :=
  or_else chunkSize (or_else (MAX_CHUNK_SIZE env) 1000).

(** What every chunk handed out is: trimmed, closed by a period, and free
    of [!] and [?]. *)
Definition normal_chunk (chunk : string) : Prop :=
  trim chunk = chunk
  /\ ends_with is_period chunk = true
  /\ all_chars (fun c => negb (is_mark c)) chunk = true.

(** The sorted entries of which [extractKeywords] returns the first 50 keys,
    for a text without the word [constructor]. *)
Definition sorted_entries (text : string) : list (string * cell) :=
  stable_sort count_le (entries (wordFreq (keyword_tokens text))).

(** A grammar issue that points at a piece of the text: at least two code
    units, inside the text, and the piece is what the issue quotes. *)
Definition issue_in_text (text : string) (found : GrammarIssue) : Prop :=
  2 <= gi_length found
  /\ gi_position found + gi_length found <= String.length text
  /\ String.length (gi_text found) = gi_length found
  /\ prefix (gi_text found) (drop (gi_position found) text) = true.

(** A pattern whose matches have at least two code units and end inside the
    string. *)
Definition sound_pattern (pattern : string -> option nat) : Prop :=
  forall s n, pattern s = Some n -> 2 <= n <= String.length s.

(** The policies that an upload adds: one for each file that could be read,
    in the order of the files. *)
Definition accepted_policies (files : list UploadedFile) : list Policy :=
  flat_map (fun file => match read_text file with
                        | Some text => [new_policy file text]
                        | None => []
                        end) files.

(** The batch handed to the vector store for a policy. *)
Definition policy_batch (env : Env) (policy : Policy) : ChromaBatch :=
  chroma_batch policy (chunkDocument env (content policy) None None).

(** What the loop of the chunker keeps true of its state: the chunks cut so
    far are as they are returned, and the buffer is empty or closed by a
    period, and holds neither [!] nor [?]. *)
Definition chunk_state_ok (st : ChunkState) : Prop :=
  Forall normal_chunk (chunks st)
  /\ (currentChunk st = "" \/ ends_with is_period (currentChunk st) = true)
  /\ all_chars (fun c => negb (is_mark c)) (currentChunk st) = true.

(** The buffer after the sentences [done] when no chunk was cut. *)
Definition buffer_of (done : list string) : string :=
  fold_left (fun buffer s => buffer +++ " " +++ trim s +++ ".") done "".

(** * Properties *)

(** ** Document chunker *)

Lemma trimEnd_idempotent (s : string) : trimEnd (trimEnd s) = trimEnd s.
Proof.
  induction s as [| c r IH]; simpl; [reflexivity |].
  destruct (trimEnd r) as [| d r'] eqn:Hr.
  - destruct (is_space c) eqn:Hc; simpl; [reflexivity | now rewrite Hc].
  - change (trimEnd (String c (String d r'))) with
      (match trimEnd (String d r') with
       | EmptyString => if is_space c then EmptyString else String c EmptyString
       | r'' => String c r''
       end).
    now rewrite IH.
Qed.

Lemma trimStart_head (s : string) : starts_with is_space (trimStart s) = false.
Proof.
  induction s as [| c r IH]; simpl; [reflexivity |].
  destruct (is_space c) eqn:Hc; [exact IH | simpl; exact Hc].
Qed.

Lemma trimEnd_keeps_head (s : string) :
  starts_with is_space s = false -> trimStart (trimEnd s) = trimEnd s.
Proof.
  destruct s as [| c r]; simpl; [reflexivity |].
  intros Hc. destruct (trimEnd r); rewrite ?Hc; simpl; now rewrite Hc.
Qed.

Lemma trim_idempotent (s : string) : trim (trim s) = trim s.
Proof.
  unfold trim.
  rewrite (trimEnd_keeps_head (trimStart s) (trimStart_head s)).
  apply trimEnd_idempotent.
Qed.

Lemma chunk_step_trimmed maxSize overlapSize st sentence :
  Forall trimmed (chunks st) ->
  Forall trimmed (chunks (chunk_step maxSize overlapSize st sentence)).
Proof.
  intros H. unfold chunk_step.
  destruct (_ && _); simpl; [| exact H].
  apply Forall_app; split; [exact H |].
  constructor; [apply trim_idempotent | constructor].
Qed.

Lemma chunk_loop_trimmed maxSize overlapSize sentences st :
  Forall trimmed (chunks st) ->
  Forall trimmed (chunks (fold_left (chunk_step maxSize overlapSize) sentences st)).
Proof.
  revert st. induction sentences as [| s rest IH]; intros st H; simpl; [exact H |].
  apply IH. now apply chunk_step_trimmed.
Qed.

Lemma chunk_flush_trimmed st :
  Forall trimmed (chunks st) -> Forall trimmed (chunk_flush st).
Proof.
  intros H. unfold chunk_flush. destruct (_ >? _)%Z; [| exact H].
  apply Forall_app; split; [exact H |].
  constructor; [apply trim_idempotent | constructor].
Qed.

(** C7.  Whatever the text, the requested chunk size and overlap, and the
    environment settings, every chunk that [chunkDocument] returns has more
    than 50 characters after trimming: the chunks are pushed trimmed and the
    final filter keeps those longer than 50. *)
Theorem chunkDocument_chunks_longer_than_50 :
  forall (env : Env) (content : string) (chunkSize overlap : option Z),
    Forall (fun chunk => 50 < String.length (trim chunk))
           (chunkDocument env content chunkSize overlap).
Proof.
  intros env content chunkSize overlap. unfold chunkDocument.
  set (st := fold_left _ _ _).
  assert (Hst : Forall trimmed (chunk_flush st)).
  { apply chunk_flush_trimmed. subst st. apply chunk_loop_trimmed. constructor. }
  apply Forall_forall. intros chunk Hin.
  apply filter_In in Hin. destruct Hin as [Hin Hlen].
  rewrite Forall_forall in Hst. rewrite (Hst chunk Hin).
  unfold strlen in Hlen. apply Z.gtb_lt in Hlen. lia.
Qed.

(** On a text of two long sentences and a small chunk size the result is
    not empty, so the statement above speaks about actual chunks. *)
Example chunkDocument_two_chunks :
  chunkDocument {| MAX_CHUNK_SIZE := Some 80%Z; CHUNK_OVERLAP := Some 20%Z |}
    "The parties agree that the term of this agreement is one year from signing. The buyer will pay the seller within thirty days of each delivery!"
    None None
  = [ "The parties agree that the term of this agreement is one year from signing.";
      "from signing. The buyer will pay the seller within thirty days of each delivery." ].
Proof. vm_compute. reflexivity. Qed.

(** ** Result history *)

Lemma slice_from_last (n : nat) (xs : list StoredResult) :
  0 < n <= List.length xs ->
  slice_from (- Z.of_nat n) xs = skipn (List.length xs - n) xs.
Proof.
  intros Hn. unfold slice_from.
  destruct (Z.ltb_spec (- Z.of_nat n) 0) as [Hneg | Hpos]; [| lia].
  f_equal. lia.
Qed.

Lemma store_result_spec (st : list StoredResult) (r : StoredResult) :
  store_result st r = skipn (List.length (st ++ [r]) - 100) (st ++ [r]).
Proof.
  unfold store_result.
  destruct (Nat.ltb_spec 100 (List.length (st ++ [r]))) as [Hlong | Hshort].
  - change (-100)%Z with (- Z.of_nat 100)%Z. apply slice_from_last. lia.
  - replace (List.length (st ++ [r]) - 100) with 0 by lia. reflexivity.
Qed.

Lemma history_spec (results : list StoredResult) :
  history results = skipn (List.length results - 100) results.
Proof.
  induction results as [| r results IH] using rev_ind.
  - reflexivity.
  - unfold history in *. rewrite fold_left_app. simpl. rewrite IH.
    rewrite store_result_spec, !skipn_app, skipn_skipn, !length_app, !length_skipn.
    simpl List.length. f_equal; f_equal; lia.
Qed.

(** C8.  The history is always the last (at most 100) stored results in
    insertion order, so it never holds more than 100; storing into a history
    of 100 drops its oldest element; and after 150 results the listing is
    the summaries of the 51st to the 150th, in order. *)
Theorem history_keeps_last_100 :
  forall results : list StoredResult,
    history results = skipn (List.length results - 100) results
    /\ List.length (history results) <= 100
    /\ (forall st r, List.length st = 100 -> store_result st r = tl st ++ [r])
    /\ (List.length results = 150 ->
        get_results (history results) = map summarize (skipn 50 results)).
Proof.
  intros results. rewrite history_spec. repeat split.
  - rewrite length_skipn. lia.
  - intros st r Hst. rewrite store_result_spec, length_app, Hst. simpl.
    destruct st as [| x st]; [discriminate | reflexivity].
  - intros H150. unfold get_results. now rewrite H150.
Qed.

(** ** Rule-based analyzer *)

(** C6.  A document in which [/\bshall\b/gi] matches exactly three times,
    [/\bhereby\b/gi] and [/[.]{2,}/g] never, which matches a pattern of the
    Parties section and one of the Term/Duration section and none of the
    Termination section, analysed with no policies, scores
    100 - min(3 * 2, 20) - 10 = 84 and is rated Low. *)
Theorem scenario_A_scores_84_low :
  forall documentText : string,
    count_word "shall" false documentText = 3 ->
    count_word "hereby" false documentText = 0 ->
    count_period_runs false documentText = 0 ->
    hasSection parties_section documentText = true ->
    hasSection term_section documentText = true ->
    hasSection termination_section documentText = false ->
    complianceScore (performBasicAnalysis documentText [])
      = VInt (100 - Z.min (3 * 2) 20 - 10)
    /\ complianceScore (performBasicAnalysis documentText []) = VInt 84
    /\ riskLevel (performBasicAnalysis documentText []) = VStr "Low".
Proof.
  intros documentText Hshall Hhereby Hperiods Hparties Hterm Htermination.
  unfold performBasicAnalysis, basic_tally, languageRules, essentialSections.
  cbn [fold_left]. unfold language_step. cbn [pattern penalty severity].
  rewrite Hshall, Hhereby, Hperiods. cbn [Nat.ltb Nat.leb].
  unfold structure_step. rewrite Hparties, Hterm, Htermination.
  cbn. repeat split; reflexivity.
Qed.

Section Loops.
Context {X : Type} (step : Tally -> X -> Tally).

Lemma loop_issue_count (adds : X -> bool) :
  (forall t x, List.length (t_issues (step t x))
               = List.length (t_issues t) + (if adds x then 1 else 0)) ->
  forall xs t, List.length (t_issues (fold_left step xs t))
               = List.length (t_issues t) + List.length (filter adds xs).
Proof.
  intros Hstep xs. induction xs as [| x xs IH]; intros t; simpl; [lia |].
  rewrite IH, Hstep. destruct (adds x); simpl; lia.
Qed.

Lemma loop_score_le (xs : list X) :
  (forall t x, In x xs -> (t_score (step t x) <= t_score t)%Z) ->
  forall t, (t_score (fold_left step xs t) <= t_score t)%Z.
Proof.
  induction xs as [| x xs IH]; intros Hstep t; simpl; [lia |].
  etransitivity; [apply IH | apply Hstep; now left].
  intros t' x' Hin. apply Hstep. now right.
Qed.
End Loops.

Lemma language_step_issues documentText t rule :
  List.length (t_issues (language_step documentText t rule))
  = List.length (t_issues t) + (if rule_fires documentText rule then 1 else 0).
Proof.
  unfold language_step, rule_fires. destruct (_ <? _)%nat; simpl.
  - now rewrite length_app.
  - lia.
Qed.

Lemma structure_step_issues documentText t section :
  List.length (t_issues (structure_step documentText t section))
  = List.length (t_issues t) + (if section_missing documentText section then 1 else 0).
Proof.
  unfold structure_step, section_missing. destruct (_ && _); simpl.
  - now rewrite length_app.
  - lia.
Qed.

Lemma policy_step_issues documentText t policy :
  List.length (t_issues (policy_step documentText t policy))
  = List.length (t_issues t) + (if policy_uncovered documentText policy then 1 else 0).
Proof.
  unfold policy_step, policy_uncovered. destruct (_ <? _)%nat; simpl.
  - now rewrite length_app.
  - lia.
Qed.

Lemma basic_issue_count documentText policies :
  List.length (issues (performBasicAnalysis documentText policies))
  = List.length (filter (rule_fires documentText) languageRules)
    + List.length (filter (section_missing documentText) essentialSections)
    + List.length (filter (policy_uncovered documentText) policies).
Proof.
  unfold performBasicAnalysis, basic_tally. cbn [issues].
  rewrite (loop_issue_count _ _ (policy_step_issues documentText)).
  rewrite (loop_issue_count _ _ (structure_step_issues documentText)).
  rewrite (loop_issue_count _ _ (language_step_issues documentText)).
  reflexivity.
Qed.

Lemma uncovered_policies_all_count (n : nat) :
  List.length (filter (policy_uncovered "") (repeat uncovered_policy n)) = n.
Proof.
  induction n as [| n IH]; [reflexivity |].
  cbn [repeat filter].
  replace (policy_uncovered "" uncovered_policy) with true by (vm_compute; reflexivity).
  simpl. now rewrite IH.
Qed.

(** C10.  The rule-based result never carries more than 20 suggestions; its
    issues are not cut: there is one per language rule that matches, one per
    required section that is missing and one per policy with an uncovered
    keyword, so that enough policies push the number of issues past any
    bound. *)
Theorem basic_suggestions_capped_issues_unbounded :
  (forall documentText policies,
      List.length (suggestions (performBasicAnalysis documentText policies)) <= 20)
  /\ (forall documentText policies,
         List.length (issues (performBasicAnalysis documentText policies))
         = List.length (filter (rule_fires documentText) languageRules)
           + List.length (filter (section_missing documentText) essentialSections)
           + List.length (filter (policy_uncovered documentText) policies))
  /\ (forall bound : nat, exists documentText policies,
         bound < List.length (issues (performBasicAnalysis documentText policies))).
Proof.
  split; [| split].
  - intros documentText policies. unfold performBasicAnalysis. cbn [suggestions].
    rewrite length_firstn. lia.
  - exact basic_issue_count.
  - intros bound. exists "", (repeat uncovered_policy (S bound)).
    rewrite basic_issue_count, uncovered_policies_all_count. lia.
Qed.

(** *** Score and risk level of the rule-based result *)

Lemma language_step_score documentText t rule :
  (0 <= penalty rule)%Z ->
  (t_score (language_step documentText t rule) <= t_score t)%Z.
Proof.
  intros Hpen. unfold language_step. destruct (_ <? _)%nat; simpl; [| lia].
  assert (0 <= Z.of_nat (pattern rule documentText) * penalty rule)%Z by nia.
  lia.
Qed.

Lemma structure_step_score documentText t section :
  (t_score (structure_step documentText t section) <= t_score t)%Z.
Proof. unfold structure_step. destruct (_ && _); simpl; lia. Qed.

Lemma policy_step_score documentText t policy :
  (t_score (policy_step documentText t policy) <= t_score t)%Z.
Proof. unfold policy_step. destruct (_ <? _)%nat; simpl; lia. Qed.

Lemma basic_tally_at_most_100 documentText policies :
  (t_score (basic_tally documentText policies) <= 100)%Z.
Proof.
  unfold basic_tally.
  etransitivity; [apply loop_score_le; intros; apply policy_step_score |].
  etransitivity; [apply loop_score_le; intros; apply structure_step_score |].
  etransitivity; [apply loop_score_le |].
  - intros t rule Hin. apply language_step_score.
    simpl in Hin. destruct Hin as [<- | [<- | [<- | []]]]; simpl; lia.
  - simpl. lia.
Qed.

Lemma basic_well_scored documentText policies :
  well_scored (complianceScore (performBasicAnalysis documentText policies))
              (riskLevel (performBasicAnalysis documentText policies)).
Proof.
  pose proof (basic_tally_at_most_100 documentText policies) as Hle.
  unfold performBasicAnalysis. cbn [complianceScore riskLevel].
  set (s := t_score (basic_tally documentText policies)) in *.
  exists (inject_Z (Z.max s 0)), (Z.max s 0).
  repeat split; try reflexivity; try lia.
  unfold risk_for.
  destruct (Z.geb_spec s 80), (Z.leb_spec 80 (Z.max s 0)); try lia; [reflexivity |].
  destruct (Z.geb_spec s 60), (Z.leb_spec 60 (Z.max s 0)); try lia; reflexivity.
Qed.

(** ** The tiers and the degradation controller *)

Lemma get_prop_value v key x : get_prop v key = Return x -> x = value_prop v key.
Proof. destruct v; simpl; intros H; inversion H; reflexivity. Qed.

Lemma retrieveRelevantPolicies_returns env collection documentText topK :
  exists relevant, retrieveRelevantPolicies env collection documentText topK = Return relevant.
Proof.
  unfold retrieveRelevantPolicies.
  destruct (retrieve_attempt env collection documentText topK); simpl; eauto.
Qed.

Lemma analyzeWithClaude_returns client documentText relevant :
  exists v, analyzeWithClaude client documentText relevant = Return v.
Proof. unfold analyzeWithClaude. destruct (client _); simpl; eauto. Qed.

Lemma analyzeWithClaude_cases client documentText relevant :
  (exists e, client (rag_prompt (rag_context relevant) documentText) = Throw e
             /\ analyzeWithClaude client documentText relevant = Return degraded_analysis)
  \/ (exists reply, client (rag_prompt (rag_context relevant) documentText) = Return reply
                    /\ analyzeWithClaude client documentText relevant = Return reply).
Proof.
  unfold analyzeWithClaude.
  destruct (client _) as [reply | e] eqn:H; simpl; [right | left]; eauto.
Qed.

Lemma merge_analyses_fields documentText relevant v basic r :
  merge_analyses documentText relevant v basic = Return r ->
  complianceScore r = value_prop v "complianceScore"
  /\ riskLevel r = value_prop v "riskLevel"
  /\ policiesAnalyzed r = List.length relevant.
Proof.
  unfold merge_analyses. intros H.
  destruct v as [| | b | q | s | items | fields]; simpl in H; try discriminate.
  destruct (spread _) in H; simpl in H; [| discriminate].
  destruct (spread _) in H; simpl in H; [| discriminate].
  inversion H; subst r; simpl. repeat split.
Qed.

Lemma merge_degraded documentText relevant basic :
  merge_analyses documentText relevant degraded_analysis basic
  = Return {| complianceScore := VInt 60;
              issues := Issue "Analysis Error" "medium" "AI analysis unavailable"
                              "Using basic analysis only" :: issues basic;
              suggestions :=
                firstn 25 (Suggestion "General" "medium" "Manual review recommended"
                             "Please have document reviewed by legal counsel"
                           :: suggestions basic);
              riskLevel := VStr "Medium";
              policiesAnalyzed := List.length relevant;
              analysis := document_stats documentText true true |}.
Proof. reflexivity. Qed.

Lemma performRAGAnalysis_unfold env collection client documentText relevant v :
  retrieveRelevantPolicies env collection documentText 10 = Return relevant ->
  analyzeWithClaude client documentText relevant = Return v ->
  performRAGAnalysis env collection client documentText
  = merge_analyses documentText relevant v (performBasicAnalysis documentText []).
Proof.
  intros Hr Hv. unfold performRAGAnalysis. rewrite Hr. simpl. rewrite Hv. simpl.
  destruct (merge_analyses _ _ _ _); reflexivity.
Qed.

Lemma enhanced_rag env collection client documentText policies :
  performEnhancedAnalysis env (Some collection) (Some client) documentText policies
  = match performRAGAnalysis env collection client documentText with
    | Return r => Return (Built r)
    | Throw _ => Return (Built (performBasicAnalysis documentText policies))
    end.
Proof.
  unfold performEnhancedAnalysis, enhanced_attempt.
  destruct (performRAGAnalysis _ _ _ _); reflexivity.
Qed.

Lemma enhanced_ai env client documentText policies :
  performEnhancedAnalysis env None (Some client) documentText policies
  = match performAIAnalysis client documentText policies with
    | Return v => Return (Reply v)
    | Throw _ => Return (Built (performBasicAnalysis documentText policies))
    end.
Proof.
  unfold performEnhancedAnalysis, enhanced_attempt.
  destruct (performAIAnalysis _ _ _); reflexivity.
Qed.

Lemma enhanced_basic env policyCollection documentText policies :
  performEnhancedAnalysis env policyCollection None documentText policies
  = Return (Built (performBasicAnalysis documentText policies)).
Proof.
  unfold performEnhancedAnalysis, enhanced_attempt.
  destruct policyCollection; reflexivity.
Qed.


(** C2, as the program has it.  When a retrieval query throws,
    [retrieveRelevantPolicies] catches the error and returns the empty
    array: the retrieval-augmented tier goes on with an empty policy context
    and, if it completes, reports no policy analysed; a failure of the
    generative call is swallowed as well, so that the tier then completes
    with the degraded analysis. *)
Theorem retrieval_failure_is_swallowed :
  forall (env : Env) (collection : RetrievalClient) (client : GenerativeClient)
         (documentText : string) (e : js_error),
    retrieve_attempt env collection documentText 10 = Throw e ->
    retrieveRelevantPolicies env collection documentText 10 = Return []
    /\ performRAGAnalysis env collection client documentText
       = (claudeAnalysis <- analyzeWithClaude client documentText [] ;;
          merge_analyses documentText [] claudeAnalysis
            (performBasicAnalysis documentText []))
    /\ (forall r, performRAGAnalysis env collection client documentText = Return r ->
                  policiesAnalyzed r = 0)
    /\ (forall e', client (rag_prompt (rag_context []) documentText) = Throw e' ->
                   exists r, performRAGAnalysis env collection client documentText
                             = Return r).
Proof.
  intros env collection client documentText e Hfail.
  assert (Hnone : retrieveRelevantPolicies env collection documentText 10 = Return []).
  { unfold retrieveRelevantPolicies. now rewrite Hfail. }
  destruct (analyzeWithClaude_returns client documentText []) as [v Hv].
  pose proof (performRAGAnalysis_unfold _ _ _ _ _ _ Hnone Hv) as Hrag.
  repeat split.
  - exact Hnone.
  - rewrite Hrag, Hv. reflexivity.
  - intros r Hr. rewrite Hrag in Hr.
    now destruct (merge_analyses_fields _ _ _ _ _ Hr) as (_ & _ & ->).
  - intros e' He'. unfold analyzeWithClaude in Hv. rewrite He' in Hv. simpl in Hv.
    inversion Hv; subst v. rewrite Hrag, merge_degraded. eauto.
Qed.


(** C4, as the program has it.  In the generative-only tier, when the text
    of the reply is not JSON, [performAIAnalysis] throws [MalformedResponse]
    to its caller, and the controller catches it and returns the rule-based
    analysis over the full policy set: the analysis does not fail. *)
Theorem ai_malformed_reply_falls_back_to_basic :
  forall (env : Env) (client : GenerativeClient) (documentText : string)
         (policies : list Policy),
    client (ai_prompt (ai_context policies) documentText) = Throw MalformedResponse ->
    performAIAnalysis client documentText policies = Throw MalformedResponse
    /\ performEnhancedAnalysis env None (Some client) documentText policies
       = Return (Built (performBasicAnalysis documentText policies)).
Proof.
  intros env client documentText policies Hbad.
  assert (Hai : performAIAnalysis client documentText policies = Throw MalformedResponse).
  { unfold performAIAnalysis. now rewrite Hbad. }
  split; [exact Hai |]. now rewrite enhanced_ai, Hai.
Qed.

Lemma assoc_set_field_other fields key k v :
  key <> k -> assoc key (set_field fields k v) = assoc key fields.
Proof.
  intros Hne. induction fields as [| [k' old] rest IH]; simpl.
  - destruct (String.eqb_spec k key); [congruence | reflexivity].
  - destruct (String.eqb_spec k' k) as [-> | Hk]; simpl.
    + destruct (String.eqb_spec k key); [congruence | reflexivity].
    + destruct (String.eqb k' key); [reflexivity | exact IH].
Qed.

Lemma assign_analysis_prop reply v key :
  assign_analysis reply = Return v ->
  key <> "analysis" ->
  analysis_prop (Reply v) key = value_prop reply key.
Proof.
  intros Hassign Hkey.
  destruct reply as [| | b | q | s | items | fields]; simpl in Hassign;
    inversion Hassign; subst v; try reflexivity; unfold analysis_prop;
    cbn [spread_fields assoc value_prop].
  - destruct (String.eqb_spec "analysis" key); [congruence | reflexivity].
  - now rewrite assoc_set_field_other.
Qed.

Lemma degraded_well_scored :
  well_scored (value_prop degraded_analysis "complianceScore")
              (value_prop degraded_analysis "riskLevel").
Proof.
  exists (inject_Z 60), 60%Z. simpl. repeat split; try reflexivity; lia.
Qed.

(** C5, as the program has it.  Every call of the controller returns a
    result, and in that result either the score is an integer of [0, 100]
    with the risk level its threshold function gives (the rule-based result,
    and the degraded analysis with its 60 and Medium), or the score and the
    risk level are read unchanged from the reply that the generative client
    returned: the program does not check or recompute them. *)
Theorem score_and_risk_by_tier :
  forall (env : Env) (policyCollection : option RetrievalClient)
         (anthropic : option GenerativeClient) (documentText : string)
         (policies : list Policy),
  exists result,
    performEnhancedAnalysis env policyCollection anthropic documentText policies
    = Return result
    /\ (well_scored (analysis_prop result "complianceScore")
                    (analysis_prop result "riskLevel")
        \/ exists client prompt reply,
             anthropic = Some client
             /\ client prompt = Return reply
             /\ analysis_prop result "complianceScore" = value_prop reply "complianceScore"
             /\ analysis_prop result "riskLevel" = value_prop reply "riskLevel").
Proof.
  intros env policyCollection anthropic documentText policies.
  assert (Hbasic : forall ps,
             well_scored
               (analysis_prop (Built (performBasicAnalysis documentText ps)) "complianceScore")
               (analysis_prop (Built (performBasicAnalysis documentText ps)) "riskLevel")).
  { intros ps. apply basic_well_scored. }
  destruct anthropic as [client |];
    [| rewrite enhanced_basic; eexists; split; [reflexivity | left; apply Hbasic]].
  destruct policyCollection as [collection |].
  - rewrite enhanced_rag.
    destruct (retrieveRelevantPolicies_returns env collection documentText 10)
      as [relevant Hrel].
    destruct (analyzeWithClaude_cases client documentText relevant)
      as [(e & Hcall & Hv) | (reply & Hcall & Hv)];
      rewrite (performRAGAnalysis_unfold _ _ _ _ _ _ Hrel Hv).
    + rewrite merge_degraded. eexists; split; [reflexivity | left].
      apply degraded_well_scored.
    + destruct (merge_analyses _ _ _ _) as [r | e] eqn:Hmerge;
        (eexists; split; [reflexivity |]); [right | left; apply Hbasic].
      destruct (merge_analyses_fields _ _ _ _ _ Hmerge) as (Hs & Hr & _).
      exists client, (rag_prompt (rag_context relevant) documentText), reply.
      repeat split; assumption.
  - rewrite enhanced_ai. unfold performAIAnalysis.
    destruct (client (ai_prompt (ai_context policies) documentText))
      as [reply | e] eqn:Hcall; simpl;
      [| eexists; split; [reflexivity | left; apply Hbasic]].
    destruct (assign_analysis reply) as [v | e] eqn:Hassign; simpl;
      (eexists; split; [reflexivity |]); [right | left; apply Hbasic].
    exists client, (ai_prompt (ai_context policies) documentText), reply.
    repeat split; try assumption;
      apply (assign_analysis_prop _ _ _ Hassign); discriminate.
Qed.

(** ** Keyword extractor *)

(** *** The stable sort *)

Section StableSort.
Context {A : Type} (le : A -> A -> bool).

Lemma insert_In (x a : A) (l : list A) : In a (insert le x l) <-> a = x \/ In a l.
Proof.
  induction l as [| y r IH]; simpl.
  - intuition auto.
  - destruct (le x y); simpl; [intuition auto |]. rewrite IH. intuition auto.
Qed.

Lemma stable_sort_In (a : A) (l : list A) : In a (stable_sort le l) <-> In a l.
Proof.
  induction l as [| x r IH]; simpl; [reflexivity |].
  rewrite insert_In, IH. intuition auto.
Qed.

Lemma stable_sort_length (l : list A) : List.length (stable_sort le l) = List.length l.
Proof.
  induction l as [| x r IH]; simpl; [reflexivity |].
  rewrite <- IH. generalize (stable_sort le r) as s.
  induction s as [| y s IHs]; simpl; [reflexivity |].
  destruct (le x y); simpl; [reflexivity | now rewrite IHs].
Qed.

(** [before] is the order of the input; [ok] marks the elements on which the
    comparison is transitive. *)
Context (before : A -> A -> Prop) (ok : A -> Prop).
Hypothesis le_trans :
  forall a b c, ok a -> ok b -> ok c -> le a b = true -> le b c = true -> le a c = true.

Lemma insert_sorted (x : A) (s : list A) :
  ok x -> Forall ok s -> Forall (before x) s ->
  StronglySorted (sorted_order le before) s ->
  StronglySorted (sorted_order le before) (insert le x s).
Proof.
  intros Hx Hok Hbefore Hsorted.
  induction Hsorted as [| y s Hs IH Hy]; simpl.
  - constructor; constructor.
  - inversion Hok as [| ? ? Hoky Hoks]; subst.
    inversion Hbefore as [| ? ? Hby Hbs]; subst.
    destruct (le x y) eqn:Hxy.
    + constructor; [constructor; assumption |].
      assert (Hxy' : sorted_order le before x y).
      { destruct (le y x) eqn:Hyx; [right | left]; auto. }
      constructor; [exact Hxy' |].
      rewrite Forall_forall in *. intros z Hz.
      destruct (le z x) eqn:Hzx; [| now left]. right.
      assert (Hzy : le z y = true) by (apply (le_trans z x y); auto).
      destruct (Hy z Hz) as [Hcontra | (Hyz & _ & _)]; [congruence |].
      repeat split; auto. apply (le_trans x y z); auto.
    + constructor; [apply IH; assumption |].
      rewrite Forall_forall in *. intros z Hz.
      apply insert_In in Hz. destruct Hz as [-> | Hz]; [now left | now apply Hy].
Qed.

Lemma stable_sort_sorted (l : list A) :
  Forall ok l -> StronglySorted before l ->
  StronglySorted (sorted_order le before) (stable_sort le l).
Proof.
  intros Hok Hsorted. induction Hsorted as [| x r Hr IH Hx]; simpl.
  - constructor.
  - inversion Hok as [| ? ? Hokx Hokr]; subst.
    apply insert_sorted; auto.
    + apply Forall_forall. intros z Hz. apply (proj1 (stable_sort_In z r)) in Hz.
      rewrite Forall_forall in Hokr. auto.
    + apply Forall_forall. intros z Hz. apply (proj1 (stable_sort_In z r)) in Hz.
      rewrite Forall_forall in Hx. auto.
Qed.
End StableSort.

(** *** Facts on strongly sorted lists *)

Section Sorted.
Context {A : Type}.

Lemma StronglySorted_weaken (R R' : A -> A -> Prop) (l : list A) :
  (forall a b, In a l -> In b l -> R a b -> R' a b) ->
  StronglySorted R l -> StronglySorted R' l.
Proof.
  intros Himpl Hsorted. induction Hsorted as [| x r Hr IH Hx].
  - constructor.
  - constructor.
    + apply IH. intros a b Ha Hb. apply Himpl; now right.
    + rewrite Forall_forall in *. intros z Hz. apply Himpl; simpl; auto.
Qed.

Lemma StronglySorted_app (R : A -> A -> Prop) (l1 l2 : list A) :
  StronglySorted R l1 -> StronglySorted R l2 ->
  (forall a b, In a l1 -> In b l2 -> R a b) ->
  StronglySorted R (l1 ++ l2).
Proof.
  intros H1 H2 Hcross. induction H1 as [| x r Hr IH Hx]; simpl; [exact H2 |].
  constructor.
  - apply IH. intros a b Ha Hb. apply Hcross; simpl; auto.
  - apply Forall_app; split; [exact Hx |].
    apply Forall_forall. intros z Hz. apply Hcross; simpl; auto.
Qed.

Lemma StronglySorted_filter (R : A -> A -> Prop) (p : A -> bool) (l : list A) :
  StronglySorted R l -> StronglySorted R (filter p l).
Proof.
  intros H. induction H as [| x r Hr IH Hx]; simpl; [constructor |].
  destruct (p x); [| exact IH]. constructor; [exact IH |].
  rewrite Forall_forall in *. intros z Hz. apply filter_In in Hz. now apply Hx.
Qed.

Lemma firstn_In (a : A) (n : nat) (l : list A) : In a (firstn n l) -> In a l.
Proof.
  revert n. induction l as [| x r IH]; intros [| n]; simpl; try tauto.
  intros [-> | H]; [now left | right; eauto].
Qed.

Lemma StronglySorted_firstn (R : A -> A -> Prop) (n : nat) (l : list A) :
  StronglySorted R l -> StronglySorted R (firstn n l).
Proof.
  intros H. revert n. induction H as [| x r Hr IH Hx]; intros [| n]; simpl;
    try constructor.
  - apply IH.
  - rewrite Forall_forall in *. intros z Hz. apply Hx.
    eapply firstn_In. exact Hz.
Qed.

Lemma StronglySorted_map {B : Type} (R : A -> A -> Prop) (R' : B -> B -> Prop)
    (f : A -> B) (l : list A) :
  (forall a b, In a l -> In b l -> R a b -> R' (f a) (f b)) ->
  StronglySorted R l -> StronglySorted R' (map f l).
Proof.
  intros Himpl Hsorted. induction Hsorted as [| x r Hr IH Hx]; simpl.
  - constructor.
  - constructor.
    + apply IH. intros a b Ha Hb. apply Himpl; now right.
    + rewrite Forall_forall in *. intros z Hz. apply in_map_iff in Hz.
      destruct Hz as (a & <- & Ha). apply Himpl; simpl; auto.
Qed.

Lemma StronglySorted_trivial (l : list A) : StronglySorted (fun _ _ => True) l.
Proof.
  induction l; constructor; auto. apply Forall_forall. auto.
Qed.
End Sorted.

(** *** The frequency object *)

Lemma occurs_before_irreflexive a words : occurs_before a a words = false.
Proof.
  induction words as [| w rest IH]; simpl; [reflexivity |].
  destruct (String.eqb w a); [reflexivity | exact IH].
Qed.

Lemma occurs_before_app a b words more :
  occurs_before a b words = true -> occurs_before a b (words ++ more) = true.
Proof.
  induction words as [| w rest IH]; simpl; [discriminate |].
  destruct (String.eqb w a); [auto |]. destruct (String.eqb w b); auto.
Qed.

Lemma occurs_before_absent a b words more :
  In a words -> ~ In b words -> occurs_before a b (words ++ more) = true.
Proof.
  induction words as [| w rest IH]; simpl; [tauto |].
  intros Ha Hb.
  destruct (String.eqb_spec w a) as [-> | Hwa].
  - destruct (String.eqb_spec a b) as [-> | _]; [tauto | reflexivity].
  - destruct (String.eqb_spec w b) as [-> | _]; [tauto |].
    apply IH; tauto.
Qed.

Lemma own_set_own obj k v k' :
  own_property (set_own obj k v) k'
  = if String.eqb k k' then Some v else own_property obj k'.
Proof.
  induction obj as [| [k0 v0] rest IH]; simpl.
  - destruct (String.eqb k k'); reflexivity.
  - destruct (String.eqb_spec k0 k) as [-> | Hne]; simpl.
    + destruct (String.eqb k k'); reflexivity.
    + rewrite IH. destruct (String.eqb_spec k0 k') as [-> | _]; [| reflexivity].
      destruct (String.eqb_spec k k'); [congruence | reflexivity].
Qed.

Lemma keys_set_own obj k v :
  map fst (set_own obj k v)
  = match own_property obj k with
    | Some _ => map fst obj
    | None => map fst obj ++ [k]
    end.
Proof.
  induction obj as [| [k0 v0] rest IH]; simpl; [reflexivity |].
  destruct (String.eqb k0 k); simpl; [reflexivity |].
  rewrite IH. destruct (own_property rest k); reflexivity.
Qed.

Lemma own_property_key obj k :
  In k (map fst obj) <-> own_property obj k <> None.
Proof.
  induction obj as [| [k0 v0] rest IH]; simpl; [tauto |].
  destruct (String.eqb_spec k0 k) as [-> | Hne].
  - split; [discriminate | auto].
  - rewrite <- IH. intuition congruence.
Qed.

Lemma own_property_In obj k v :
  NoDup (map fst obj) -> In (k, v) obj -> own_property obj k = Some v.
Proof.
  induction obj as [| [k0 v0] rest IH]; simpl; [tauto |].
  intros Hnd [Heq | Hin].
  - inversion Heq; subst. now rewrite String.eqb_refl.
  - inversion Hnd as [| ? ? Hnotin Hnd']; subst.
    destruct (String.eqb_spec k0 k) as [-> | _]; [| auto].
    exfalso. apply Hnotin. apply in_map_iff. now exists (k, v).
Qed.

Lemma StronglySorted_NoDup {A : Type} (R : A -> A -> Prop) (l : list A) :
  (forall a, ~ R a a) -> StronglySorted R l -> NoDup l.
Proof.
  intros Hirr H. induction H as [| x r Hr IH Hx]; constructor; [| exact IH].
  intros Hin. rewrite Forall_forall in Hx. exact (Hirr x (Hx x Hin)).
Qed.

Lemma frequency_snoc words w k :
  frequency (words ++ [w]) k
  = frequency words k + (if String.eqb w k then 1 else 0).
Proof.
  unfold frequency. rewrite count_occ_app. simpl.
  destruct (string_dec w k) as [-> | Hne].
  - now rewrite String.eqb_refl.
  - destruct (String.eqb_spec w k); [congruence | reflexivity].
Qed.

Lemma frequency_positive words k : (0 <? frequency words k)%nat = true <-> In k words.
Proof.
  unfold frequency. rewrite Nat.ltb_lt. symmetry. apply count_occ_In.
Qed.

Lemma wordFreq_snoc words w : wordFreq (words ++ [w]) = bump (wordFreq words) w.
Proof. unfold wordFreq. now rewrite fold_left_app. Qed.

Lemma wordFreq_invariant (words : list string) :
  Forall ordinary words ->
  (forall k, own_property (wordFreq words) k = counted words k)
  /\ StronglySorted (fun a b => occurs_before a b words = true)
                    (map fst (wordFreq words)).
Proof.
  induction words as [| w words IH] using rev_ind; intros Hord.
  - split; [reflexivity | constructor].
  - apply Forall_app in Hord. destruct Hord as [Hords Hw].
    inversion Hw as [| ? ? Hordw _]; subst. clear Hw.
    destruct (IH Hords) as [Hlookup Hkeys]. clear IH.
    rewrite wordFreq_snoc. unfold bump. rewrite (Hlookup w).
    assert (Hweak : StronglySorted (fun a b => occurs_before a b (words ++ [w]) = true)
                      (map fst (wordFreq words))).
    { eapply StronglySorted_weaken; [| exact Hkeys].
      intros a b _ _. apply occurs_before_app. }
    destruct ((0 <? frequency words w)%nat && negb (String.eqb w "__proto__")) eqn:Hcond.
    + (* the word already has a count *)
      assert (Hc : counted words w = Some (Num (Z.of_nat (frequency words w))))
        by (unfold counted; now rewrite Hcond).
      rewrite !Hc. split.
      * intros k. rewrite own_set_own, Hlookup. unfold counted.
        rewrite frequency_snoc.
        destruct (String.eqb_spec w k) as [<- | Hne].
        -- apply andb_prop in Hcond. destruct Hcond as [_ Hproto]. rewrite Hproto.
           replace (0 <? frequency words w + 1)%nat with true
             by (symmetry; apply Nat.ltb_lt; lia).
           simpl. do 2 f_equal. lia.
        -- now rewrite Nat.add_0_r.
      * rewrite keys_set_own, Hlookup. unfold counted. now rewrite Hcond.
    + assert (Hc : counted words w = None) by (unfold counted; now rewrite Hcond).
      rewrite !Hc, !Hordw.
      destruct (String.eqb_spec w "__proto__") as [-> | Hproto].
      * (* the write to __proto__ leaves the object as it is *)
        split; [| exact Hweak].
        intros k. rewrite Hlookup. unfold counted. rewrite frequency_snoc.
        destruct (String.eqb_spec "__proto__" k) as [<- | Hne].
        -- simpl. now rewrite !andb_false_r.
        -- now rewrite Nat.add_0_r.
      * (* a new key, appended *)
        assert (Hfresh : ~ In w words).
        { intros Hin. apply frequency_positive in Hin. rewrite Hin in Hcond.
          simpl in Hcond. destruct (String.eqb_spec w "__proto__"); congruence. }
        assert (Hzero : frequency words w = 0).
        { unfold frequency. now apply count_occ_not_In. }
        split.
        -- intros k. rewrite own_set_own, Hlookup. unfold counted.
           rewrite frequency_snoc.
           destruct (String.eqb_spec w k) as [<- | Hne].
           ++ rewrite Hzero. simpl.
              destruct (String.eqb_spec w "__proto__"); [congruence | reflexivity].
           ++ now rewrite Nat.add_0_r.
        -- rewrite keys_set_own, Hlookup. unfold counted. rewrite Hzero. simpl.
           apply StronglySorted_app; [exact Hweak | repeat constructor |].
           intros a b Ha [<- | []].
           apply occurs_before_absent; [| exact Hfresh].
           apply own_property_key in Ha. rewrite Hlookup in Ha. unfold counted in Ha.
           destruct (0 <? frequency words a)%nat eqn:Hpos; [| now simpl in Ha].
           now apply frequency_positive.
Qed.

(** *** The tokens *)

Lemma split_on_pieces (sep p : ascii -> bool) (s piece : string) :
  all_chars p s = true ->
  In piece (split_on sep s) ->
  all_chars (fun c => p c && negb (sep c)) piece = true.
Proof.
  revert piece. induction s as [| c r IH]; simpl; intros piece Hall Hin.
  - destruct Hin as [<- | []]. reflexivity.
  - apply andb_prop in Hall. destruct Hall as [Hc Hr].
    destruct (sep c) eqn:Hsep.
    + destruct (starts_with sep r).
      * now apply IH.
      * destruct Hin as [<- | Hin]; [reflexivity | now apply IH].
    + destruct (split_on sep r) as [| q t] eqn:Hsplit.
      * destruct Hin as [<- | []]. simpl. now rewrite Hc, Hsep.
      * destruct Hin as [<- | Hin].
        -- simpl. rewrite Hc, Hsep. simpl. apply IH; [exact Hr | now left].
        -- apply IH; [exact Hr | now right].
Qed.

Lemma blank_lower_char (c : ascii) :
  plain (blank_punctuation (lower_char c)) || is_space (blank_punctuation (lower_char c))
  = true.
Proof. destruct c as [[] [] [] [] [] [] [] []]; vm_compute; reflexivity. Qed.

Lemma plain_lower_char (c : ascii) : plain c = true -> lower_char c = c.
Proof. destruct c as [[] [] [] [] [] [] [] []]; vm_compute; congruence. Qed.

Lemma plain_toLowerCase (s : string) : all_chars plain s = true -> toLowerCase s = s.
Proof.
  induction s as [| c r IH]; simpl; [reflexivity |].
  intros H. apply andb_prop in H. destruct H as [Hc Hr].
  unfold toLowerCase in *. simpl. now rewrite (plain_lower_char c Hc), IH.
Qed.

Lemma processed_chars (text : string) :
  all_chars (fun c => plain c || is_space c)
            (map_chars blank_punctuation (toLowerCase text)) = true.
Proof.
  induction text as [| c r IH]; [reflexivity |].
  change (toLowerCase (String c r)) with (String (lower_char c) (toLowerCase r)).
  cbn [map_chars all_chars]. now rewrite blank_lower_char, IH.
Qed.

Lemma keyword_token_spec (text w : string) :
  In w (keyword_tokens text) ->
  all_chars plain w = true /\ 3 < String.length w /\ includes commonWords w = false.
Proof.
  unfold keyword_tokens. intros Hin. apply filter_In in Hin.
  destruct Hin as [Hpiece Hkeep]. apply andb_prop in Hkeep.
  destruct Hkeep as [Hlen Hcommon]. repeat split.
  - pose proof (split_on_pieces is_space (fun c => plain c || is_space c) _ _
                  (processed_chars text) Hpiece) as Hchars.
    revert Hchars. clear. induction w as [| c r IH]; simpl; [reflexivity |].
    intros H. apply andb_prop in H. destruct H as [Hc Hr]. rewrite (IH Hr).
    destruct (plain c), (is_space c); simpl in *; congruence.
  - now apply Nat.ltb_lt.
  - now apply negb_true_iff.
Qed.

Lemma plain_ordinary (w : string) :
  all_chars plain w = true -> w <> "constructor" -> ordinary w.
Proof.
  intros Hplain Hne. unfold ordinary, prototype_functions. cbn [assoc].
  repeat match goal with
         | |- context [String.eqb ?name w] =>
             destruct (String.eqb_spec name w) as [<- | _];
             [first [congruence | vm_compute in Hplain; discriminate] |]
         end.
  reflexivity.
Qed.

(** *** The order of the keywords *)

Lemma StronglySorted_unmap {A B : Type} (R : B -> B -> Prop) (f : A -> B) (l : list A) :
  StronglySorted R (map f l) -> StronglySorted (fun a b => R (f a) (f b)) l.
Proof.
  induction l as [| x r IH]; simpl; intros H; [constructor |].
  inversion H as [| ? ? Hr Hx]; subst. constructor; [now apply IH |].
  rewrite Forall_forall in *. intros z Hz. apply Hx. now apply in_map.
Qed.

Lemma index_le_trans (a b c : string * cell) :
  is_index (fst a) = true -> is_index (fst b) = true -> is_index (fst c) = true ->
  index_le a b = true -> index_le b c = true -> index_le a c = true.
Proof.
  unfold is_index, index_le.
  destruct (index_value (fst a)), (index_value (fst b)), (index_value (fst c));
    try discriminate.
  intros _ _ _ H1 H2. apply N.leb_le in H1, H2. apply N.leb_le. lia.
Qed.

Lemma count_le_trans (a b c : string * cell) :
  is_num a = true -> is_num b = true -> is_num c = true ->
  count_le a b = true -> count_le b c = true -> count_le a c = true.
Proof.
  unfold is_num, count_le.
  destruct (snd a), (snd b), (snd c); simpl; try discriminate.
  intros _ _ _ H1 H2. apply Z.leb_le in H1, H2. apply Z.leb_le. lia.
Qed.

Lemma entries_In (obj : freq_object) (e : string * cell) :
  In e (entries obj) -> In e obj.
Proof.
  unfold entries. intros H. apply in_app_or in H. destruct H as [H | H].
  - apply stable_sort_In in H. now apply filter_In in H.
  - now apply filter_In in H.
Qed.

Lemma entries_sorted (words : list string) (obj : freq_object) :
  StronglySorted (fun a b => occurs_before a b words = true) (map fst obj) ->
  StronglySorted (fun a b => key_before words (fst a) (fst b)) (entries obj).
Proof.
  intros Hkeys. unfold entries. apply StronglySorted_app.
  - eapply StronglySorted_weaken;
      [| apply (stable_sort_sorted index_le (fun _ _ => True)
                  (fun e => is_index (fst e) = true) index_le_trans)].
    + intros a b Ha Hb Hab.
      apply stable_sort_In in Ha, Hb. apply filter_In in Ha, Hb.
      destruct Ha as [_ Ha], Hb as [_ Hb].
      unfold sorted_order, index_le, is_index, key_before in *.
      destruct (index_value (fst a)), (index_value (fst b)); try discriminate.
      destruct Hab as [Hlt | (Hle & _)].
      * apply N.leb_gt in Hlt. lia.
      * now apply N.leb_le.
    + apply Forall_forall. intros e He. now apply filter_In in He.
    + apply StronglySorted_trivial.
  - eapply StronglySorted_weaken;
      [| apply StronglySorted_filter;
         exact (StronglySorted_unmap
                  (fun a b => occurs_before a b words = true) fst obj Hkeys)].
    intros a b Ha Hb Hab. apply filter_In in Ha, Hb.
    destruct Ha as [_ Ha], Hb as [_ Hb]. apply negb_true_iff in Ha, Hb.
    unfold is_index, key_before in *.
    destruct (index_value (fst a)), (index_value (fst b)); try discriminate.
    exact Hab.
  - intros a b Ha Hb.
    apply stable_sort_In in Ha. apply filter_In in Ha, Hb.
    destruct Ha as [_ Ha], Hb as [_ Hb]. apply negb_true_iff in Hb.
    unfold is_index, key_before in *.
    destruct (index_value (fst a)), (index_value (fst b)); try discriminate. exact I.
Qed.

Lemma counted_entries (words : list string) (e : string * cell) :
  Forall ordinary words ->
  In e (wordFreq words) ->
  snd e = Num (Z.of_nat (frequency words (fst e))) /\ In (fst e) words.
Proof.
  intros Hord Hin. destruct (wordFreq_invariant words Hord) as [Hlookup Hkeys].
  assert (Hnodup : NoDup (map fst (wordFreq words))).
  { eapply StronglySorted_NoDup; [| exact Hkeys].
    intros a Ha. rewrite occurs_before_irreflexive in Ha. discriminate. }
  destruct e as [k v]. pose proof (own_property_In _ _ _ Hnodup Hin) as Hown.
  rewrite Hlookup in Hown. unfold counted in Hown. simpl.
  destruct (0 <? frequency words k)%nat eqn:Hpos; [| discriminate].
  destruct (negb (String.eqb k "__proto__")); [| discriminate].
  simpl in Hown. inversion Hown. split; [reflexivity |].
  now apply frequency_positive.
Qed.

Lemma sort_by_count_numbers (es : list (string * cell)) :
  Forall (fun e => is_num e = true) es ->
  sort_by_count es = stable_sort count_le es.
Proof.
  intros Hnum. unfold sort_by_count, consistent_comparator.
  replace (forallb is_num es) with true; [reflexivity |].
  symmetry. apply forallb_forall. now apply Forall_forall.
Qed.

(** C9, as the program has it.  [extractKeywords] returns at most 50
    keywords.  When the word [constructor] is not among the tokens, every
    keyword is a token of the text in lower case, longer than three
    characters and outside the stop-word list, and the keywords come by
    falling frequency; keywords of one frequency come in the order in which
    the frequency object enumerates its keys: the numerals that are array
    indices first, by value, and then the other words by first occurrence
    in the token stream. *)
Theorem extractKeywords_order :
  forall text : string,
    List.length (extractKeywords text) <= 50
    /\ (~ In "constructor" (keyword_tokens text) ->
        Forall (fun k => In k (keyword_tokens text)
                         /\ toLowerCase k = k
                         /\ 3 < String.length k
                         /\ includes commonWords k = false)
               (extractKeywords text)
        /\ StronglySorted (keyword_order (keyword_tokens text)) (extractKeywords text)).
Proof.
  intros text. split.
  - unfold extractKeywords. rewrite length_map. apply firstn_le_length.
  - intros Hctor. set (words := keyword_tokens text) in *.
    assert (Hord : Forall ordinary words).
    { apply Forall_forall. intros w Hw.
      apply plain_ordinary; [now apply (keyword_token_spec text) | congruence]. }
    destruct (wordFreq_invariant words Hord) as [_ Hkeys].
    assert (Hentry : forall e, In e (entries (wordFreq words)) ->
                snd e = Num (Z.of_nat (frequency words (fst e))) /\ In (fst e) words).
    { intros e He. apply counted_entries; [exact Hord | now apply entries_In]. }
    assert (Hnum : Forall (fun e => is_num e = true) (entries (wordFreq words))).
    { apply Forall_forall. intros e He. unfold is_num.
      now rewrite (proj1 (Hentry e He)). }
    unfold extractKeywords. fold words. rewrite (sort_by_count_numbers _ Hnum).
    split.
    + apply Forall_forall. intros k Hk. apply in_map_iff in Hk.
      destruct Hk as (e & <- & He). apply firstn_In, stable_sort_In in He.
      destruct (Hentry e He) as [_ Hin].
      destruct (keyword_token_spec text _ Hin) as (Hplain & Hlen & Hcommon).
      repeat split; auto. now apply plain_toLowerCase.
    + eapply StronglySorted_map;
        [| apply StronglySorted_firstn,
             (stable_sort_sorted count_le
                (fun a b => key_before words (fst a) (fst b))
                (fun e => is_num e = true) count_le_trans);
           [exact Hnum | now apply entries_sorted]].
      intros a b Ha Hb Hab.
      apply firstn_In, stable_sort_In in Ha. apply firstn_In, stable_sort_In in Hb.
      destruct (Hentry a Ha) as [Hca _], (Hentry b Hb) as [Hcb _].
      unfold sorted_order, count_le in Hab. rewrite Hca, Hcb in Hab. simpl in Hab.
      unfold keyword_order.
      destruct Hab as [Hlt | (Hab & Hba & Hbefore)].
      * left. apply Z.leb_gt in Hlt. lia.
      * right. apply Z.leb_le in Hab, Hba. split; [lia | exact Hbefore].
Qed.

(** * Further properties *)

(** ** Strings *)

Lemma append_assoc (a b c : string) : (a +++ b) +++ c = a +++ (b +++ c).
Proof. induction a as [| x a IH]; simpl; [reflexivity | now rewrite IH]. Qed.

Lemma append_empty_r (a : string) : a +++ "" = a.
Proof. induction a as [| x a IH]; simpl; [reflexivity | now rewrite IH]. Qed.

Lemma strlen_append (a b : string) : strlen (a +++ b) = (strlen a + strlen b)%Z.
Proof.
  unfold strlen. induction a as [| x a IH]; simpl String.length; [reflexivity |].
  rewrite !Nat2Z.inj_succ, IH. lia.
Qed.

Lemma all_chars_append (p : ascii -> bool) (a b : string) :
  all_chars p (a +++ b) = all_chars p a && all_chars p b.
Proof.
  induction a as [| x a IH]; simpl; [reflexivity |]. rewrite IH. apply andb_assoc.
Qed.

Lemma all_chars_weaken (p q : ascii -> bool) (s : string) :
  (forall c, p c = true -> q c = true) -> all_chars p s = true -> all_chars q s = true.
Proof.
  intros Hpq. induction s as [| c r IH]; simpl; [reflexivity |].
  intros H. apply andb_prop in H. destruct H as [Hc Hr]. now rewrite (Hpq c Hc), IH.
Qed.

Lemma all_chars_trimStart (p : ascii -> bool) (s : string) :
  all_chars p s = true -> all_chars p (trimStart s) = true.
Proof.
  induction s as [| c r IH]; simpl; [reflexivity |].
  intros H. destruct (is_space c); [| exact H].
  apply andb_prop in H. now apply IH.
Qed.

Lemma all_chars_trimEnd (p : ascii -> bool) (s : string) :
  all_chars p s = true -> all_chars p (trimEnd s) = true.
Proof.
  induction s as [| c r IH]; simpl; [reflexivity |].
  intros H. apply andb_prop in H. destruct H as [Hc Hr]. specialize (IH Hr).
  destruct (trimEnd r) as [| d r'].
  - destruct (is_space c); simpl; [reflexivity | now rewrite Hc].
  - change (all_chars p (String c (String d r')))
      with (p c && all_chars p (String d r')).
    now rewrite Hc, IH.
Qed.

Lemma all_chars_trim (p : ascii -> bool) (s : string) :
  all_chars p s = true -> all_chars p (trim s) = true.
Proof. intros H. now apply all_chars_trimEnd, all_chars_trimStart. Qed.

Lemma all_chars_join (p : ascii -> bool) (sep : string) (parts : list string) :
  all_chars p sep = true ->
  Forall (fun part => all_chars p part = true) parts ->
  all_chars p (join sep parts) = true.
Proof.
  intros Hsep Hparts. induction Hparts as [| x rest Hx Hrest IH]; [reflexivity |].
  destruct rest as [| y rest']; [exact Hx |].
  change (join sep (x :: y :: rest')) with (x +++ sep +++ join sep (y :: rest')).
  now rewrite !all_chars_append, Hx, Hsep, IH.
Qed.

Lemma all_space_trims_to_empty (s : string) :
  all_chars is_space s = true -> trim s = "".
Proof.
  unfold trim. induction s as [| c r IH]; simpl; [reflexivity |].
  intros H. apply andb_prop in H. destruct H as [Hc Hr]. rewrite Hc. now apply IH.
Qed.

Lemma ends_with_append (p : ascii -> bool) (a b : string) :
  b <> "" -> ends_with p (a +++ b) = ends_with p b.
Proof.
  intros Hb. induction a as [| x a IH]; [reflexivity |].
  simpl. rewrite <- IH. destruct (a +++ b) eqn:Hab; [| reflexivity].
  destruct a; simpl in Hab; [congruence | discriminate].
Qed.

Lemma ends_with_nonempty (p : ascii -> bool) (s : string) :
  ends_with p s = true -> s <> "".
Proof. destruct s; [discriminate | discriminate]. Qed.

Lemma ends_with_trimStart (p : ascii -> bool) (s : string) :
  (forall c, p c = true -> is_space c = false) ->
  ends_with p s = true -> ends_with p (trimStart s) = true.
Proof.
  intros Hp. induction s as [| c r IH]; [discriminate |].
  intros H. cbn [trimStart]. destruct (is_space c) eqn:Hc; [| exact H].
  apply IH. destruct r as [| d r']; [| exact H].
  simpl in H. rewrite (Hp c H) in Hc. discriminate.
Qed.

Lemma trimEnd_unchanged (s : string) :
  ends_with (fun c => negb (is_space c)) s = true -> trimEnd s = s.
Proof.
  induction s as [| c r IH]; [discriminate |].
  intros H. cbn [trimEnd]. destruct r as [| d r'].
  - simpl in *. apply negb_true_iff in H. now rewrite H.
  - rewrite (IH H). reflexivity.
Qed.

Lemma ends_with_weaken (p q : ascii -> bool) (s : string) :
  (forall c, p c = true -> q c = true) -> ends_with p s = true -> ends_with q s = true.
Proof.
  intros Hpq. induction s as [| c r IH]; [discriminate |].
  destruct r as [| d r']; [apply Hpq | exact IH].
Qed.

Lemma ends_with_trim (p : ascii -> bool) (s : string) :
  (forall c, p c = true -> is_space c = false) ->
  ends_with p s = true -> ends_with p (trim s) = true.
Proof.
  intros Hp H. unfold trim. apply (ends_with_trimStart p s Hp) in H.
  rewrite trimEnd_unchanged; [exact H |].
  eapply ends_with_weaken; [| exact H].
  intros c Hc. now rewrite (Hp c Hc).
Qed.

Lemma period_is_no_space (c : ascii) : is_period c = true -> is_space c = false.
Proof. destruct c as [[] [] [] [] [] [] [] []]; vm_compute; congruence. Qed.

Lemma slice_from_In {A : Type} (start : Z) (xs : list A) (x : A) :
  In x (slice_from start xs) -> In x xs.
Proof.
  unfold slice_from. generalize (Z.to_nat (if (start <? 0)%Z
    then Z.max (Z.of_nat (List.length xs) + start) 0
    else Z.min start (Z.of_nat (List.length xs)))) as k.
  intros k Hin. rewrite <- (firstn_skipn k xs). apply in_or_app. now right.
Qed.

(** ** Document chunker, continued *)

Lemma terminal_free_no_mark (s : string) :
  all_chars (fun c => negb (is_terminal c)) s = true ->
  all_chars (fun c => negb (is_mark c)) s = true.
Proof.
  apply all_chars_weaken. intros c.
  destruct c as [[] [] [] [] [] [] [] []]; vm_compute; congruence.
Qed.

Lemma trimmed_buffer_normal (buffer : string) :
  ends_with is_period buffer = true ->
  all_chars (fun c => negb (is_mark c)) buffer = true ->
  normal_chunk (trim buffer).
Proof.
  intros Hend Hall. repeat split.
  - apply trim_idempotent.
  - apply ends_with_trim; [exact period_is_no_space | exact Hend].
  - now apply all_chars_trim.
Qed.

Lemma next_buffer_ok (before sentence : string) :
  all_chars (fun c => negb (is_mark c)) before = true ->
  all_chars (fun c => negb (is_terminal c)) sentence = true ->
  ends_with is_period (before +++ " " +++ trim sentence +++ ".") = true
  /\ all_chars (fun c => negb (is_mark c)) (before +++ " " +++ trim sentence +++ ".")
     = true.
Proof.
  intros Hbefore Hsentence. split.
  - rewrite <- !append_assoc. rewrite ends_with_append; [reflexivity | discriminate].
  - rewrite !all_chars_append, Hbefore.
    rewrite (all_chars_trim _ _ (terminal_free_no_mark _ Hsentence)). reflexivity.
Qed.

Lemma chunk_step_ok maxSize overlapSize st sentence :
  all_chars (fun c => negb (is_terminal c)) sentence = true ->
  chunk_state_ok st -> chunk_state_ok (chunk_step maxSize overlapSize st sentence).
Proof.
  intros Hsentence (Hchunks & Hend & Hall). unfold chunk_step.
  destruct (_ && _) eqn:Hflush; unfold chunk_state_ok; cbn [chunks currentChunk].
  - apply andb_prop in Hflush. destruct Hflush as [_ Hlen].
    destruct Hend as [Hempty | Hend];
      [rewrite Hempty in Hlen; discriminate |].
    assert (Hwords : all_chars (fun c => negb (is_mark c))
                       (join " " (slice_from (- (overlapSize / 10))
                                    (split_on is_space (currentChunk st)))) = true).
    { apply all_chars_join; [reflexivity |]. apply Forall_forall. intros w Hw.
      apply slice_from_In in Hw.
      apply (all_chars_weaken _ _ _ (fun c H => proj1 (andb_prop _ _ H))
               (split_on_pieces is_space _ _ _ Hall Hw)). }
    destruct (next_buffer_ok _ sentence Hwords Hsentence) as [Hend' Hall'].
    split; [| split; [right; exact Hend' | exact Hall']].
    apply Forall_app. split; [exact Hchunks |].
    constructor; [now apply trimmed_buffer_normal | constructor].
  - destruct (next_buffer_ok _ sentence Hall Hsentence) as [Hend' Hall'].
    split; [exact Hchunks | split; [right; exact Hend' | exact Hall']].
Qed.

Lemma chunk_loop_ok maxSize overlapSize sentences st :
  Forall (fun s => all_chars (fun c => negb (is_terminal c)) s = true) sentences ->
  chunk_state_ok st ->
  chunk_state_ok (fold_left (chunk_step maxSize overlapSize) sentences st).
Proof.
  intros Hs. revert st. induction Hs as [| s rest Hhead _ IH]; intros st Hst; simpl;
    [exact Hst |].
  apply IH. now apply chunk_step_ok.
Qed.

Lemma sentences_terminal_free (content : string) :
  Forall (fun s => all_chars (fun c => negb (is_terminal c)) s = true)
         (sentences_of content).
Proof.
  apply Forall_forall. intros s Hs. unfold sentences_of in Hs.
  apply filter_In in Hs. destruct Hs as [Hs _].
  assert (Hany : all_chars (fun _ => true) content = true)
    by (clear; induction content; simpl; auto).
  exact (split_on_pieces is_terminal (fun _ => true) content s Hany Hs).
Qed.

(** X1.  Every chunk that [chunkDocument] returns is closed by a period and
    holds no [!] and no [?]: the marks that end the sentences of the text
    are all replaced by periods.  It has no white space at either end. *)
Theorem chunkDocument_chunks_end_in_period :
  forall (env : Env) (content : string) (chunkSize overlap : option Z),
    Forall normal_chunk (chunkDocument env content chunkSize overlap).
Proof.
  intros env content chunkSize overlap. unfold chunkDocument.
  fold (sentences_of content). set (st := fold_left _ _ _).
  assert (Hst : chunk_state_ok st).
  { subst st. apply chunk_loop_ok; [apply sentences_terminal_free |].
    repeat split; [constructor | now left]. }
  destruct Hst as (Hchunks & Hend & Hall).
  apply Forall_forall. intros chunk Hin. apply filter_In in Hin.
  destruct Hin as [Hin _]. unfold chunk_flush in Hin.
  rewrite Forall_forall in Hchunks.
  destruct (_ >? _)%Z eqn:Hlen; [| now apply Hchunks].
  apply in_app_or in Hin. destruct Hin as [Hin | [<- | []]]; [now apply Hchunks |].
  destruct Hend as [Hempty | Hend]; [rewrite Hempty in Hlen; discriminate |].
  now apply trimmed_buffer_normal.
Qed.

(** *** A text that fits into one chunk *)

Lemma buffer_of_snoc done s :
  buffer_of (done ++ [s]) = buffer_of done +++ " " +++ trim s +++ ".".
Proof. unfold buffer_of. now rewrite fold_left_app. Qed.

Lemma fold_buffer_length (rest : list string) (start : string) :
  (strlen start
   <= strlen (fold_left (fun buffer s => buffer +++ " " +++ trim s +++ ".") rest start))%Z.
Proof.
  revert start. induction rest as [| s rest IH]; intros start; simpl; [lia |].
  etransitivity; [| apply IH]. rewrite !strlen_append. unfold strlen. lia.
Qed.

Lemma chunk_loop_no_cut maxSize overlapSize rest done :
  (strlen (buffer_of (done ++ rest)) <= maxSize + 1)%Z ->
  fold_left (chunk_step maxSize overlapSize) rest
    {| chunks := []; currentChunk := buffer_of done;
       currentSize := strlen (buffer_of done) |}
  = {| chunks := []; currentChunk := buffer_of (done ++ rest);
       currentSize := strlen (buffer_of (done ++ rest)) |}.
Proof.
  revert done. induction rest as [| s rest IH]; intros done Hfit.
  - now rewrite app_nil_r.
  - cbn [fold_left]. replace (done ++ s :: rest) with ((done ++ [s]) ++ rest) in *
      by now rewrite <- app_assoc.
    assert (Hstep : (strlen (buffer_of (done ++ [s])) <= maxSize + 1)%Z).
    { etransitivity; [| exact Hfit]. unfold buffer_of at 2. rewrite fold_left_app.
      apply fold_buffer_length. }
    unfold chunk_step at 2. cbn [currentSize currentChunk chunks].
    replace (strlen (buffer_of done) + strlen (trim s +++ ".") >? maxSize)%Z with false.
    + cbn [andb]. rewrite <- buffer_of_snoc. now apply IH.
    + symmetry. rewrite Z.gtb_ltb. apply Z.ltb_ge.
      rewrite buffer_of_snoc, !strlen_append in Hstep.
      rewrite strlen_append. change (strlen " ") with 1%Z in Hstep. lia.
Qed.

Lemma buffer_of_join (s : string) (rest : list string) :
  buffer_of (s :: rest) = " " +++ join " " (map (fun x => trim x +++ ".") (s :: rest)).
Proof.
  induction rest as [| y rest IH] using rev_ind; [reflexivity |].
  rewrite app_comm_cons, buffer_of_snoc, IH, map_app. cbn [map].
  rewrite !append_assoc. f_equal. f_equal.
  generalize (map (fun x => trim x +++ ".") rest) as parts.
  generalize (trim s +++ ".") as x. generalize (trim y +++ ".") as z.
  intros z x parts. revert x. induction parts as [| w parts IHp]; intros x.
  - reflexivity.
  - change ((x :: w :: parts) ++ [z]) with (x :: (w :: parts) ++ [z]).
    change (join " " (x :: w :: parts)) with (x +++ " " +++ join " " (w :: parts)).
    rewrite !append_assoc. rewrite IHp.
    destruct ((w :: parts) ++ [z]) eqn:H; [destruct parts; discriminate |].
    reflexivity.
Qed.

Lemma trim_starts_without_space (s : string) : starts_with is_space (trim s) = false.
Proof.
  pose proof (trimEnd_keeps_head (trimStart s) (trimStart_head s)) as H.
  fold (trim s) in H. destruct (trim s) as [| c r] eqn:Ht; [reflexivity |].
  simpl in *. destruct (is_space c) eqn:Hc; [| reflexivity].
  exfalso. assert (Hlen : String.length (trimStart r) = S (String.length r))
    by now rewrite H.
  clear -Hlen. assert (String.length (trimStart r) <= String.length r).
  { clear. induction r as [| d r IH]; simpl; [lia |].
    destruct (is_space d); simpl; lia. }
  lia.
Qed.

Lemma ends_with_join (p : ascii -> bool) (sep : string) (parts : list string) :
  parts <> [] ->
  Forall (fun part => ends_with p part = true) parts ->
  ends_with p (join sep parts) = true.
Proof.
  intros Hne Hparts. induction Hparts as [| x rest Hx Hrest IH]; [congruence |].
  destruct rest as [| y rest']; [exact Hx |].
  change (join sep (x :: y :: rest')) with (x +++ sep +++ join sep (y :: rest')).
  assert (Htail : ends_with p (join sep (y :: rest')) = true) by (apply IH; discriminate).
  pose proof (ends_with_nonempty _ _ Htail) as Hnonempty.
  rewrite !ends_with_append; [exact Htail | exact Hnonempty |].
  destruct sep; [exact Hnonempty | discriminate].
Qed.

Lemma trim_of_buffer (s : string) (rest : list string) :
  (strlen (trim s) >? 0)%Z = true ->
  trim (buffer_of (s :: rest)) = join " " (map (fun x => trim x +++ ".") (s :: rest)).
Proof.
  intros Hs. rewrite buffer_of_join.
  set (whole := join " " (map (fun x => trim x +++ ".") (s :: rest))).
  assert (Hhead : starts_with is_space whole = false).
  { subst whole. cbn [map]. pose proof (trim_starts_without_space s) as Hh.
    destruct (trim s) as [| c r] eqn:Ht; [discriminate |].
    destruct (map _ rest); exact Hh. }
  assert (Hend : ends_with is_period whole = true).
  { subst whole. apply ends_with_join; [discriminate |].
    apply Forall_forall. intros part Hpart. apply in_map_iff in Hpart.
    destruct Hpart as (x & <- & _).
    rewrite ends_with_append; [reflexivity | discriminate]. }
  unfold trim. change (trimStart (" " +++ whole)) with (trimStart whole).
  assert (Hstart : trimStart whole = whole).
  { destruct whole as [| c r]; [reflexivity |]. simpl in *. now rewrite Hhead. }
  rewrite Hstart. apply trimEnd_unchanged.
  eapply ends_with_weaken; [| exact Hend].
  intros c Hc. now rewrite (period_is_no_space c Hc).
Qed.

(** X2.  When the sentences of the text, trimmed, closed by periods and
    separated by single spaces, are not longer than the chunk size, the
    chunker returns exactly that text as its only chunk, or no chunk when it
    has 50 characters or fewer. *)
Theorem chunkDocument_text_that_fits :
  forall (env : Env) (content : string) (chunkSize overlap : option Z),
    (strlen (normalized_text content) <= chunk_limit env chunkSize)%Z ->
    chunkDocument env content chunkSize overlap
    = if (strlen (normalized_text content) >? 50)%Z
      then [normalized_text content] else [].
Proof.
  intros env content chunkSize overlap Hfit. unfold chunkDocument.
  fold (sentences_of content). fold (chunk_limit env chunkSize).
  unfold normalized_text in *.
  destruct (sentences_of content) as [| s rest] eqn:Hsentences.
  - reflexivity.
  - assert (Hs : (strlen (trim s) >? 0)%Z = true).
    { assert (Hin : In s (sentences_of content)) by (rewrite Hsentences; now left).
      unfold sentences_of in Hin. now apply filter_In in Hin. }
    pose proof (trim_of_buffer s rest Hs) as Htrim.
    pose proof (buffer_of_join s rest) as Hjoin.
    set (whole := join " " (map (fun x => trim x +++ ".") (s :: rest))) in *.
    change {| chunks := []; currentChunk := ""; currentSize := 0 |}
      with {| chunks := []; currentChunk := buffer_of [];
              currentSize := strlen (buffer_of []) |}.
    rewrite chunk_loop_no_cut.
    + cbn [app]. unfold chunk_flush. cbn [currentChunk chunks]. rewrite Htrim.
      assert (Hlen : (strlen whole >? 0)%Z = true).
      { unfold whole. cbn [map]. apply Z.gtb_lt.
        destruct (map _ rest); cbn [join]; rewrite ?strlen_append;
          change (strlen ".") with 1%Z; unfold strlen; lia. }
      rewrite Hlen. cbn [app filter]. destruct (strlen whole >? 50)%Z; reflexivity.
    + cbn [app]. rewrite Hjoin, strlen_append. change (strlen " ") with 1%Z. lia.
Qed.

Lemma filter_none {A : Type} (f : A -> bool) (l : list A) :
  (forall x, In x l -> f x = false) -> filter f l = [].
Proof.
  induction l as [| x l IH]; intros H; simpl; [reflexivity |].
  rewrite (H x (or_introl eq_refl)). apply IH. intros y Hy. apply H. now right.
Qed.

(** X3.  A text that holds nothing but white space and sentence marks, the
    empty text among them, gives no chunk at all. *)
Theorem chunkDocument_blank_text :
  forall (env : Env) (content : string) (chunkSize overlap : option Z),
    all_chars (fun c => is_space c || is_terminal c) content = true ->
    chunkDocument env content chunkSize overlap = [].
Proof.
  intros env content chunkSize overlap Hblank. unfold chunkDocument.
  fold (sentences_of content).
  assert (Hnone : sentences_of content = []); [| now rewrite Hnone].
  apply filter_none. intros piece Hpiece.
  pose proof (split_on_pieces is_terminal _ content piece Hblank Hpiece) as Hchars.
  rewrite all_space_trims_to_empty; [reflexivity |].
  eapply all_chars_weaken; [| exact Hchars].
  intros c Hc. cbv beta in Hc.
  destruct (is_space c), (is_terminal c); simpl in Hc; congruence.
Qed.

(** ** Keyword extractor, continued *)

Lemma lower_char_idempotent (c : ascii) : lower_char (lower_char c) = lower_char c.
Proof. destruct c as [[] [] [] [] [] [] [] []]; vm_compute; reflexivity. Qed.

Lemma toLowerCase_idempotent (s : string) : toLowerCase (toLowerCase s) = toLowerCase s.
Proof.
  unfold toLowerCase. induction s as [| c r IH]; simpl; [reflexivity |].
  now rewrite lower_char_idempotent, IH.
Qed.

(** X4.  The keywords do not depend on the case of the letters: a text and
    its lower-case form have the same keywords, in the same order. *)
Theorem extractKeywords_ignores_case :
  forall text : string, extractKeywords (toLowerCase text) = extractKeywords text.
Proof.
  intros text. unfold extractKeywords, keyword_tokens.
  now rewrite toLowerCase_idempotent.
Qed.

Lemma insert_Permutation {A : Type} (le : A -> A -> bool) (x : A) (l : list A) :
  Permutation (insert le x l) (x :: l).
Proof.
  induction l as [| y r IH]; simpl; [reflexivity |].
  destruct (le x y); [reflexivity |].
  rewrite IH. apply perm_swap.
Qed.

Lemma stable_sort_Permutation {A : Type} (le : A -> A -> bool) (l : list A) :
  Permutation (stable_sort le l) l.
Proof.
  induction l as [| x r IH]; simpl; [reflexivity |].
  rewrite insert_Permutation. now constructor.
Qed.

Lemma filter_split_Permutation {A : Type} (p : A -> bool) (l : list A) :
  Permutation (filter p l ++ filter (fun x => negb (p x)) l) l.
Proof.
  induction l as [| x r IH]; simpl; [reflexivity |].
  destruct (p x); simpl.
  - now constructor.
  - rewrite <- Permutation_middle. now constructor.
Qed.

Lemma entries_Permutation (obj : freq_object) : Permutation (entries obj) obj.
Proof.
  unfold entries. rewrite stable_sort_Permutation.
  apply (filter_split_Permutation (fun e => is_index (fst e))).
Qed.

Lemma NoDup_firstn {A : Type} (n : nat) (l : list A) : NoDup l -> NoDup (firstn n l).
Proof.
  intros H. rewrite <- (firstn_skipn n l) in H. now apply NoDup_app_remove_r in H.
Qed.

Lemma sorted_entries_facts (text : string) :
  ~ In "constructor" (keyword_tokens text) ->
  extractKeywords text = map fst (firstn 50 (sorted_entries text))
  /\ Permutation (sorted_entries text) (wordFreq (keyword_tokens text))
  /\ NoDup (map fst (wordFreq (keyword_tokens text)))
  /\ (forall k, own_property (wordFreq (keyword_tokens text)) k
                = counted (keyword_tokens text) k)
  /\ (forall e, In e (sorted_entries text) ->
                snd e = Num (Z.of_nat (frequency (keyword_tokens text) (fst e))))
  /\ StronglySorted
       (sorted_order count_le
          (fun a b => key_before (keyword_tokens text) (fst a) (fst b)))
       (sorted_entries text).
Proof.
  intros Hctor. unfold sorted_entries. set (words := keyword_tokens text) in *.
  assert (Hord : Forall ordinary words).
  { apply Forall_forall. intros w Hw.
    apply plain_ordinary; [now apply (keyword_token_spec text) | congruence]. }
  destruct (wordFreq_invariant words Hord) as [Hlookup Hkeys].
  assert (Hentry : forall e, In e (entries (wordFreq words)) ->
              snd e = Num (Z.of_nat (frequency words (fst e)))).
  { intros e He. apply counted_entries; [exact Hord | now apply entries_In]. }
  assert (Hnum : Forall (fun e => is_num e = true) (entries (wordFreq words))).
  { apply Forall_forall. intros e He. unfold is_num. now rewrite (Hentry e He). }
  repeat split.
  - unfold extractKeywords. fold words. now rewrite (sort_by_count_numbers _ Hnum).
  - rewrite stable_sort_Permutation. apply entries_Permutation.
  - eapply StronglySorted_NoDup; [| exact Hkeys].
    intros a Ha. rewrite occurs_before_irreflexive in Ha. discriminate.
  - exact Hlookup.
  - intros e He. apply Hentry. now apply stable_sort_In in He.
  - apply (stable_sort_sorted count_le _ (fun e => is_num e = true) count_le_trans);
      [exact Hnum | now apply entries_sorted].
Qed.

(** X5.  When the word [constructor] is not among the tokens, no keyword is
    returned twice, and [__proto__] is never returned, however often the
    text has it. *)
Theorem extractKeywords_distinct :
  forall text : string,
    ~ In "constructor" (keyword_tokens text) ->
    NoDup (extractKeywords text) /\ ~ In "__proto__" (extractKeywords text).
Proof.
  intros text Hctor.
  destruct (sorted_entries_facts text Hctor) as (-> & Hperm & Hnodup & Hlookup & _).
  assert (Hkeys : Permutation (map fst (sorted_entries text))
                    (map fst (wordFreq (keyword_tokens text))))
    by now apply Permutation_map.
  split.
  - rewrite <- firstn_map. apply NoDup_firstn.
    eapply Permutation_NoDup; [symmetry; exact Hkeys | exact Hnodup].
  - intros Hin. rewrite <- firstn_map in Hin. apply firstn_In in Hin.
    apply (Permutation_in _ Hkeys) in Hin.
    apply own_property_key in Hin. apply Hin. rewrite Hlookup.
    unfold counted. simpl. now rewrite andb_false_r.
Qed.

Lemma sorted_firstn_skipn {A : Type} (R : A -> A -> Prop) (n : nat) (l : list A)
    (a b : A) :
  StronglySorted R l -> In a (firstn n l) -> In b (skipn n l) -> R a b.
Proof.
  intros H. revert n. induction H as [| x r Hr IH Hx]; intros n Ha Hb.
  - destruct n; contradiction.
  - destruct n as [| n]; [contradiction |]. simpl in Ha, Hb.
    destruct Ha as [<- | Ha]; [| now apply (IH n)].
    rewrite Forall_forall in Hx. apply Hx.
    rewrite <- (firstn_skipn n r). apply in_or_app. now right.
Qed.

(** X6.  When the word [constructor] is not among the tokens, a token other
    than [__proto__] is left out only if 50 keywords are returned and each
    of them occurs at least as often as it does. *)
Theorem extractKeywords_keeps_the_most_frequent :
  forall (text w : string),
    ~ In "constructor" (keyword_tokens text) ->
    In w (keyword_tokens text) ->
    w <> "__proto__" ->
    In w (extractKeywords text)
    \/ (List.length (extractKeywords text) = 50
        /\ forall k, In k (extractKeywords text) ->
                     frequency (keyword_tokens text) w
                     <= frequency (keyword_tokens text) k).
Proof.
  intros text w Hctor Hw Hproto.
  destruct (sorted_entries_facts text Hctor)
    as (-> & Hperm & Hnodup & Hlookup & Hcount & Hsorted).
  assert (Hkey : In w (map fst (sorted_entries text))).
  { apply (Permutation_in _ (Permutation_sym (Permutation_map fst Hperm))).
    apply own_property_key. rewrite Hlookup. unfold counted.
    rewrite (proj2 (frequency_positive _ _) Hw).
    destruct (String.eqb_spec w "__proto__"); [congruence | discriminate]. }
  apply in_map_iff in Hkey. destruct Hkey as (e & <- & He).
  rewrite <- (firstn_skipn 50 (sorted_entries text)) in He.
  apply in_app_or in He. destruct He as [He | He]; [left; now apply in_map |].
  right. split.
  - rewrite length_map, length_firstn. apply Nat.min_l.
    destruct (Nat.le_gt_cases 50 (List.length (sorted_entries text))) as [H | H];
      [exact H |].
    rewrite skipn_all2 in He by lia. contradiction.
  - intros k Hk. apply in_map_iff in Hk. destruct Hk as (a & <- & Ha).
    pose proof (sorted_firstn_skipn _ _ _ _ _ Hsorted Ha He) as Hae.
    assert (Ha' : In a (sorted_entries text)) by (eapply firstn_In; exact Ha).
    assert (He' : In e (sorted_entries text)).
    { rewrite <- (firstn_skipn 50 (sorted_entries text)). apply in_or_app. now right. }
    unfold sorted_order, count_le in Hae.
    rewrite (Hcount a Ha'), (Hcount e He') in Hae. simpl in Hae.
    destruct Hae as [Hlt | (Hle & _)].
    + apply Z.leb_gt in Hlt. lia.
    + apply Z.leb_le in Hle. lia.
Qed.

(** ** Rule-based analyzer, continued *)

Lemma loop_score_ge {X : Type} (step : Tally -> X -> Tally) (d : Z) (xs : list X) :
  (forall t x, (t_score t - d <= t_score (step t x))%Z) ->
  forall t, (t_score t - d * Z.of_nat (List.length xs) <= t_score (fold_left step xs t))%Z.
Proof.
  intros Hstep. induction xs as [| x xs IH]; intros t; simpl List.length; simpl fold_left.
  - lia.
  - specialize (IH (step t x)). specialize (Hstep t x). lia.
Qed.

Lemma language_step_at_most_20 documentText t rule :
  (t_score t - 20 <= t_score (language_step documentText t rule))%Z.
Proof. unfold language_step. destruct (_ <? _)%nat; simpl; lia. Qed.

Lemma structure_step_at_most_10 documentText t section :
  (t_score t - 10 <= t_score (structure_step documentText t section))%Z.
Proof. unfold structure_step. destruct (_ && _); simpl; lia. Qed.

Lemma policy_step_at_most_15 documentText t policy :
  (t_score t - 15 <= t_score (policy_step documentText t policy))%Z.
Proof. unfold policy_step. destruct (_ <? _)%nat; simpl; lia. Qed.

(** X7.  The rule-based score is an integer between 10 - 15 n and 100 for n
    policies, and never negative: the three language rules cost at most 20
    each, the three sections 10 each and a policy at most 15.  Without
    policies it is at least 10. *)
Theorem basic_score_range :
  forall (documentText : string) (policies : list Policy),
  exists n : Z,
    complianceScore (performBasicAnalysis documentText policies) = VInt n
    /\ (Z.max 0 (10 - 15 * Z.of_nat (List.length policies)) <= n <= 100)%Z.
Proof.
  intros documentText policies.
  exists (Z.max (t_score (basic_tally documentText policies)) 0). split; [reflexivity |].
  pose proof (basic_tally_at_most_100 documentText policies) as Hle.
  unfold basic_tally in *.
  pose proof (loop_score_ge (policy_step documentText) 15 policies
                (policy_step_at_most_15 documentText)
                (fold_left (structure_step documentText) essentialSections
                   (fold_left (language_step documentText) languageRules
                      {| t_issues := []; t_suggestions := []; t_score := 100 |}))) as Hp.
  pose proof (loop_score_ge (structure_step documentText) 10 essentialSections
                (structure_step_at_most_10 documentText)
                (fold_left (language_step documentText) languageRules
                   {| t_issues := []; t_suggestions := []; t_score := 100 |})) as Hs.
  pose proof (loop_score_ge (language_step documentText) 20 languageRules
                (language_step_at_most_20 documentText)
                {| t_issues := []; t_suggestions := []; t_score := 100 |}) as Hl.
  change (Z.of_nat (List.length essentialSections)) with 3%Z in Hs.
  change (Z.of_nat (List.length languageRules)) with 3%Z in Hl.
  cbn [t_score] in Hl. lia.
Qed.

Lemma basic_tally_snoc documentText policies policy :
  basic_tally documentText (policies ++ [policy])
  = policy_step documentText (basic_tally documentText policies) policy.
Proof. unfold basic_tally. now rewrite fold_left_app. Qed.

(** X8.  One more policy at the end of the list never raises the
    rule-based score and lowers it by at most 15; it leaves the issues found
    so far in place and adds at most one. *)
Theorem basic_one_more_policy :
  forall (documentText : string) (policies : list Policy) (policy : Policy),
    (exists n m : Z,
        complianceScore (performBasicAnalysis documentText policies) = VInt n
        /\ complianceScore (performBasicAnalysis documentText (policies ++ [policy]))
           = VInt m
        /\ (n - 15 <= m <= n)%Z)
    /\ (exists added,
           issues (performBasicAnalysis documentText (policies ++ [policy]))
           = issues (performBasicAnalysis documentText policies) ++ added
           /\ List.length added <= 1).
Proof.
  intros documentText policies policy.
  unfold performBasicAnalysis. cbn [complianceScore issues].
  rewrite basic_tally_snoc. set (t := basic_tally documentText policies).
  pose proof (policy_step_at_most_15 documentText t policy) as Hlow.
  pose proof (policy_step_score documentText t policy) as Hhigh.
  split.
  - exists (Z.max (t_score t) 0), (Z.max (t_score (policy_step documentText t policy)) 0).
    repeat split; lia.
  - unfold policy_step. destruct (_ <? _)%nat; cbn [t_issues].
    + eexists. split; [reflexivity | simpl; lia].
    + exists []. split; [now rewrite app_nil_r | simpl; lia].
Qed.

Lemma prefix_refl (s : string) : prefix s s = true.
Proof.
  induction s as [| c r IH]; simpl; [reflexivity |]. now rewrite Ascii.eqb_refl, IH.
Qed.

Lemma str_includes_refl (s : string) : str_includes s s = true.
Proof. destruct s; simpl; [reflexivity |]. now rewrite Ascii.eqb_refl, prefix_refl. Qed.

Lemma covered_policy_step documentText t policy :
  (forall k, In k (firstn 10 (keywords policy)) -> In k (extractKeywords documentText)) ->
  policy_step documentText t policy = t.
Proof.
  intros Hcovered. unfold policy_step.
  replace (missing_keywords documentText policy) with (@nil string); [reflexivity |].
  symmetry. unfold missing_keywords. apply filter_none. intros k Hk.
  apply negb_false_iff, existsb_exists. exists k. split; [now apply Hcovered |].
  now rewrite str_includes_refl.
Qed.

(** X9.  A policy whose first ten keywords are all keywords of the document
    costs nothing: with it at the end of the list the score, the risk level,
    the issues and the suggestions are what they are without it.  So a text
    analysed against the policy made from that same text meets no policy
    issue. *)
Theorem basic_covered_policy_is_free :
  forall (documentText : string) (policies : list Policy) (policy : Policy),
    (forall k, In k (firstn 10 (keywords policy)) ->
               In k (extractKeywords documentText)) ->
    complianceScore (performBasicAnalysis documentText (policies ++ [policy]))
    = complianceScore (performBasicAnalysis documentText policies)
    /\ riskLevel (performBasicAnalysis documentText (policies ++ [policy]))
       = riskLevel (performBasicAnalysis documentText policies)
    /\ issues (performBasicAnalysis documentText (policies ++ [policy]))
       = issues (performBasicAnalysis documentText policies)
    /\ suggestions (performBasicAnalysis documentText (policies ++ [policy]))
       = suggestions (performBasicAnalysis documentText policies).
Proof.
  intros documentText policies policy Hcovered.
  unfold performBasicAnalysis. cbn [complianceScore riskLevel issues suggestions].
  rewrite basic_tally_snoc, (covered_policy_step _ _ _ Hcovered).
  repeat split.
Qed.

Lemma loop_suggestions_le {X : Type} (step : Tally -> X -> Tally) (xs : list X) :
  (forall t x, List.length (t_suggestions t) <= List.length (t_issues t) ->
               List.length (t_suggestions (step t x)) <= List.length (t_issues (step t x))) ->
  forall t, List.length (t_suggestions t) <= List.length (t_issues t) ->
            List.length (t_suggestions (fold_left step xs t))
            <= List.length (t_issues (fold_left step xs t)).
Proof.
  intros Hstep. induction xs as [| x xs IH]; intros t Ht; simpl; [exact Ht |].
  apply IH. now apply Hstep.
Qed.

(** X10.  The rule-based result never has more suggestions than issues:
    every suggestion is pushed together with an issue. *)
Theorem basic_suggestions_at_most_issues :
  forall (documentText : string) (policies : list Policy),
    List.length (suggestions (performBasicAnalysis documentText policies))
    <= List.length (issues (performBasicAnalysis documentText policies)).
Proof.
  intros documentText policies. unfold performBasicAnalysis. cbn [suggestions issues].
  rewrite length_firstn. etransitivity; [apply Nat.le_min_r |].
  unfold basic_tally.
  apply loop_suggestions_le.
  { intros t x Ht. unfold policy_step. destruct (_ <? _)%nat; cbn; [| exact Ht].
    rewrite !length_app. simpl. lia. }
  apply loop_suggestions_le.
  { intros t x Ht. unfold structure_step. destruct (_ && _); cbn; [| exact Ht].
    rewrite !length_app. simpl. lia. }
  apply loop_suggestions_le.
  { intros t x Ht. unfold language_step. destruct (_ <? _)%nat; cbn; [| exact Ht].
    rewrite !length_app. simpl. lia. }
  simpl. lia.
Qed.

(** ** Retrieval-augmented and generative-only tiers, continued *)

Lemma query_loop_throw collection topK items e :
  fold_left (query_step collection topK) items (Throw e) = Throw e.
Proof. induction items as [| item items IH]; simpl; [reflexivity | exact IH]. Qed.

Lemma query_loop_rows collection topK items acc all :
  fold_left (query_step collection topK) items (Return acc) = Return all ->
  forall x, In x all ->
    In x acc
    \/ exists i chunk rows,
         In (i, chunk) items
         /\ collection i chunk (ceil_third topK) = Return (Some rows)
         /\ In x rows.
Proof.
  revert acc. induction items as [| [i chunk] items IH]; intros acc Hfold x Hx.
  - simpl in Hfold. inversion Hfold; subst. now left.
  - cbn [fold_left] in Hfold. unfold query_step at 2 in Hfold. cbn [bind fst snd] in Hfold.
    destruct (collection i chunk (ceil_third topK)) as [results | e] eqn:Hquery;
      cbn [bind] in Hfold; [| rewrite query_loop_throw in Hfold; discriminate].
    destruct (IH _ Hfold x Hx) as [Hacc | (j & c & rows & Hin & Hq & Hrows)].
    + destruct results as [rows |]; [| now left].
      apply in_app_or in Hacc. destruct Hacc as [Hacc | Hnew]; [now left |].
      right. exists i, chunk, rows. repeat split; auto. now left.
    + right. exists j, c, rows. repeat split; auto. now right.
Qed.

Lemma numbered_first_three {A : Type} (xs : list A) (i : nat) (x : A) :
  In (i, x) (number (firstn 3 xs)) -> i < 3 /\ In x xs.
Proof.
  unfold number. intros Hin. split.
  - apply in_combine_l, in_seq in Hin. pose proof (firstn_le_length 3 xs). lia.
  - apply in_combine_r in Hin. eapply firstn_In. exact Hin.
Qed.

Lemma distance_le_trans (a b c : RetrievedSnippet) :
  True -> True -> True ->
  distance_le a b = true -> distance_le b c = true -> distance_le a c = true.
Proof.
  unfold distance_le. intros _ _ _ Hab Hbc.
  apply Qle_bool_iff in Hab, Hbc. apply Qle_bool_iff. eapply Qle_trans; eauto.
Qed.

Lemma sorted_by_distance (rows : list RetrievedSnippet) :
  StronglySorted (fun a b => Qle (distance a) (distance b))
                 (stable_sort distance_le rows).
Proof.
  eapply StronglySorted_weaken;
    [| apply (stable_sort_sorted distance_le (fun _ _ => True) (fun _ => True)
                distance_le_trans);
       [apply Forall_forall; auto | apply StronglySorted_trivial]].
  intros a b _ _ [Hlt | (Hle & _)]; unfold distance_le in *.
  - apply Qlt_le_weak, Qnot_le_lt. intros Hle. apply Qle_bool_iff in Hle. congruence.
  - now apply Qle_bool_iff.
Qed.

Lemma retrieve_facts env collection documentText topK :
  exists found,
    retrieveRelevantPolicies env collection documentText topK = Return found
    /\ List.length found <= topK
    /\ StronglySorted (fun a b => Qle (distance a) (distance b)) found
    /\ forall x, In x found ->
         exists i chunk rows,
           i < 3
           /\ In chunk (chunkDocument env documentText None None)
           /\ collection i chunk (ceil_third topK) = Return (Some rows)
           /\ In x rows.
Proof.
  unfold retrieveRelevantPolicies, retrieve_attempt.
  destruct (fold_left _ _ _) as [all | e] eqn:Hfold; cbn [bind catch].
  - eexists. split; [reflexivity |]. split; [apply firstn_le_length |].
    split; [apply StronglySorted_firstn, sorted_by_distance |].
    intros x Hx. apply firstn_In, stable_sort_In in Hx.
    destruct (query_loop_rows _ _ _ _ _ Hfold x Hx) as [[] | (i & c & rows & Hin & Hq & Hr)].
    apply numbered_first_three in Hin. destruct Hin as [Hi Hc].
    exists i, c, rows. auto.
  - exists []. repeat split; [simpl; lia | constructor | intros x []].
Qed.

(** X11.  [retrieveRelevantPolicies] always returns: at most [topK]
    snippets, in the order of rising distance, each of them a row of the
    reply to one of at most three queries, which were made for chunks of the
    document and asked for ceil(topK / 3) rows. *)
Theorem retrieveRelevantPolicies_result :
  forall (env : Env) (collection : RetrievalClient) (documentText : string) (topK : nat),
  exists found,
    retrieveRelevantPolicies env collection documentText topK = Return found
    /\ List.length found <= topK
    /\ StronglySorted (fun a b => Qle (distance a) (distance b)) found
    /\ forall x, In x found ->
         exists i chunk rows,
           i < 3
           /\ In chunk (chunkDocument env documentText None None)
           /\ collection i chunk (ceil_third topK) = Return (Some rows)
           /\ In x rows.
Proof. exact retrieve_facts. Qed.

Lemma merge_analyses_lists documentText relevant v basic r :
  merge_analyses documentText relevant v basic = Return r ->
  (exists fromReply, issues r = fromReply ++ issues basic)
  /\ List.length (suggestions r) <= 25
  /\ analysis r = document_stats documentText true true.
Proof.
  unfold merge_analyses. intros H.
  destruct v as [| | b | q | s | items | fields]; cbn [bind get_prop spread] in H;
    try discriminate.
  destruct (spread _) as [fromReply |] in H; cbn [bind] in H; [| discriminate].
  destruct (spread _) as [l |] in H; cbn [bind] in H; [| discriminate].
  injection H as Hr. split; [| split].
  - exists fromReply. now rewrite <- Hr.
  - replace (suggestions r) with (firstn 25 (l ++ suggestions basic))
      by (now rewrite <- Hr).
    apply firstn_le_length.
  - now rewrite <- Hr.
Qed.


Lemma assoc_set_field_same fields key v :
  assoc key (set_field fields key v) = Some v.
Proof.
  induction fields as [| [k old] rest IH]; simpl.
  - now rewrite String.eqb_refl.
  - destruct (String.eqb_spec k key) as [-> | Hne]; simpl.
    + now rewrite String.eqb_refl.
    + destruct (String.eqb_spec k key); [congruence | exact IH].
Qed.

(** X13.  In the generative-only tier a reply that is an object is returned
    with its [analysis] property set to the marker of that tier, whatever
    the reply had there, and with every other property as the reply has it;
    the reply [null] cannot take the marker, and the controller returns the
    rule-based result instead. *)
Theorem ai_tier_marks_the_reply :
  forall (env : Env) (client : GenerativeClient) (documentText : string)
         (policies : list Policy) (reply : jsval),
    client (ai_prompt (ai_context policies) documentText) = Return reply ->
    (forall fields, reply = VObj fields ->
        exists marked,
          performEnhancedAnalysis env None (Some client) documentText policies
          = Return (Reply marked)
          /\ analysis_prop (Reply marked) "analysis" = ai_flags
          /\ forall key, key <> "analysis" ->
                         analysis_prop (Reply marked) key = value_prop reply key)
    /\ (reply = VNull ->
        performEnhancedAnalysis env None (Some client) documentText policies
        = Return (Built (performBasicAnalysis documentText policies))).
Proof.
  intros env client documentText policies reply Hreply.
  rewrite enhanced_ai. unfold performAIAnalysis. rewrite Hreply. cbn [bind].
  split.
  - intros fields ->. cbn [assign_analysis catch]. eexists. split; [reflexivity |].
    split.
    + unfold analysis_prop. cbn [spread_fields]. now rewrite assoc_set_field_same.
    + intros key Hkey. unfold analysis_prop. cbn [spread_fields value_prop].
      now rewrite assoc_set_field_other.
  - intros ->. reflexivity.
Qed.

(** ** Grammar check *)

Lemma run_length_le (p : ascii -> bool) (s : string) : run_length p s <= String.length s.
Proof.
  induction s as [| c r IH]; simpl; [lia |]. destruct (p c); simpl; lia.
Qed.

Lemma starts_with_drop (p : ascii -> bool) (n : nat) (s : string) :
  starts_with p (drop n s) = true -> n < String.length s.
Proof.
  revert s. induction n as [| n IH]; intros [| c r]; simpl; try discriminate.
  - lia.
  - intros H. apply IH in H. lia.
Qed.

Lemma grammarRules_sound :
  Forall (fun rule => sound_pattern (gr_pattern rule)) grammarRules.
Proof.
  unfold grammarRules.
  apply Forall_cons; [| apply Forall_cons; [| apply Forall_cons;
    [| apply Forall_cons; [| apply Forall_nil]]]];
    cbn [gr_pattern]; intros s n H.
  - unfold spaces_match in H. pose proof (run_length_le is_space s).
    destruct (Nat.leb_spec 2 (run_length is_space s)); inversion H; subst; lia.
  - destruct s as [| a [| b r]]; simpl in H; try discriminate.
    destruct (_ && _); inversion H; subst; simpl; lia.
  - unfold space_before_mark_match in H.
    destruct (Nat.leb_spec 1 (run_length is_space s)); simpl in H; [| discriminate].
    destruct (starts_with _ _) eqn:Hmark; inversion H; subst.
    apply starts_with_drop in Hmark. lia.
  - destruct s as [| a [| b r]]; simpl in H; try discriminate.
    destruct (_ && _); inversion H; subst; simpl; lia.
Qed.

Lemma take_length (n : nat) (s : string) :
  n <= String.length s -> String.length (take n s) = n.
Proof.
  revert s. induction n as [| n IH]; intros [| c r]; simpl; intros H; try lia.
  rewrite IH; lia.
Qed.

Lemma take_prefix (n : nat) (s : string) : prefix (take n s) s = true.
Proof.
  revert s. induction n as [| n IH]; intros [| c r]; simpl; try reflexivity.
  now rewrite Ascii.eqb_refl, IH.
Qed.

Lemma matchAll_in_text (pattern : string -> option nat) :
  sound_pattern pattern ->
  forall s skip pos0 pos t,
    In (pos, t) (matchAll pattern skip pos0 s) ->
    pos0 <= pos
    /\ (pos - pos0) + String.length t <= String.length s
    /\ 2 <= String.length t
    /\ prefix t (drop (pos - pos0) s) = true.
Proof.
  intros Hsound. induction s as [| c r IH]; intros skip pos0 pos t Hin; [contradiction |].
  assert (Hrest : forall k, In (pos, t) (matchAll pattern k (S pos0) r) ->
            pos0 <= pos
            /\ (pos - pos0) + String.length t <= String.length (String c r)
            /\ 2 <= String.length t
            /\ prefix t (drop (pos - pos0) (String c r)) = true).
  { intros k Hk. destruct (IH _ _ _ _ Hk) as (Hpos & Hlen & Htwo & Hpre).
    replace (pos - pos0) with (S (pos - S pos0)) by lia.
    cbn [String.length drop]. repeat split; auto; lia. }
  cbn [matchAll] in Hin. destruct skip as [| k]; [| now apply (Hrest k)].
  destruct (pattern (String c r)) as [n |] eqn:Hmatch; [| now apply (Hrest 0)].
  destruct Hin as [Heq | Hin]; [| now apply (Hrest (n - 1))].
  inversion Heq; subst. destruct (Hsound _ _ Hmatch) as [Htwo Hlen].
  rewrite Nat.sub_diag, take_length by exact Hlen.
  repeat split; auto. apply take_prefix.
Qed.

Lemma rule_issues_in_text (text : string) (ruleIndex : nat) (rule : GrammarRule)
    (found : GrammarIssue) :
  sound_pattern (gr_pattern rule) ->
  In found (rule_issues text (ruleIndex, rule)) ->
  issue_in_text text found.
Proof.
  intros Hsound Hin. unfold rule_issues in Hin. cbn [fst snd] in Hin.
  apply in_map_iff in Hin. destruct Hin as ([matchIndex [pos t]] & <- & Hin).
  unfold number in Hin. apply in_combine_r in Hin.
  destruct (matchAll_in_text _ Hsound _ _ _ _ _ Hin) as (_ & Hlen & Htwo & Hpre).
  rewrite Nat.sub_0_r in Hlen, Hpre.
  unfold issue_in_text, grammar_issue. cbn [gi_length gi_position gi_text fst snd].
  repeat split; auto.
Qed.

(** X14.  The basic grammar check returns at most 50 issues, and each of
    them points into the text: its position and length stay inside the
    text, the length is that of the quoted piece and at least 2, and the
    quoted piece is what the text has at that position. *)
Theorem checkGrammarBasic_issues_point_into_text :
  forall text : string,
    List.length (checkGrammarBasic text) <= 50
    /\ Forall (issue_in_text text) (checkGrammarBasic text).
Proof.
  intros text. unfold checkGrammarBasic. split; [apply firstn_le_length |].
  apply Forall_forall. intros found Hin. apply firstn_In, in_concat in Hin.
  destruct Hin as (group & Hgroup & Hin). apply in_map_iff in Hgroup.
  destruct Hgroup as ([ruleIndex rule] & <- & Hrule).
  eapply rule_issues_in_text; [| exact Hin].
  unfold number in Hrule. apply in_combine_r in Hrule.
  pose proof grammarRules_sound as Hsound. rewrite Forall_forall in Hsound.
  now apply Hsound.
Qed.


(** ** Policy management *)

Lemma decimal_injective (a b : nat) : decimal a = decimal b -> a = b.
Proof.
  unfold decimal. intros H. apply DecimalNat.Unsigned.to_uint_inj.
  pose proof (NilEmpty.usu (Nat.to_uint a)) as Ha.
  rewrite H, NilEmpty.usu in Ha. now inversion Ha.
Qed.

Lemma append_injective (p a b : string) : p +++ a = p +++ b -> a = b.
Proof. induction p as [| c p IH]; simpl; intros H; [exact H | inversion H; auto]. Qed.

Lemma NoDup_map_injective {A B : Type} (f : A -> B) (l : list A) :
  (forall x y, f x = f y -> x = y) -> NoDup l -> NoDup (map f l).
Proof.
  intros Hinj H. induction H as [| x l Hx Hl IH]; simpl; constructor; [| exact IH].
  intros Hin. apply in_map_iff in Hin. destruct Hin as (y & Hy & Hin).
  apply Hinj in Hy. now subst.
Qed.

Lemma number_unzip {A : Type} (xs : list A) :
  map fst (number xs) = seq 0 (List.length xs) /\ map snd (number xs) = xs.
Proof.
  unfold number. generalize 0 as start.
  induction xs as [| x xs IH]; intros start; simpl; [split; reflexivity |].
  destruct (IH (S start)) as [Hfst Hsnd]. now rewrite Hfst, Hsnd.
Qed.

(** X16.  The batch that [addPolicyToChromaDB] hands to the vector store has
    one document, one metadata record and one id for each chunk, in the
    order of the chunks: the ids are pairwise distinct, each is the
    [chunk_id] of its metadata record, and the records number the chunks
    from 0 and all carry the number of chunks. *)
Theorem chroma_batch_rows :
  forall (policy : Policy) (chunks : list string),
    batch_documents (chroma_batch policy chunks) = chunks
    /\ List.length (batch_metadatas (chroma_batch policy chunks)) = List.length chunks
    /\ batch_ids (chroma_batch policy chunks)
       = map chunk_id (batch_metadatas (chroma_batch policy chunks))
    /\ NoDup (batch_ids (chroma_batch policy chunks))
    /\ map chunk_index (batch_metadatas (chroma_batch policy chunks))
       = seq 0 (List.length chunks)
    /\ Forall (fun m => total_chunks m = List.length chunks
                        /\ meta_policy_id m = policy_id policy
                        /\ policy_name m = name policy)
              (batch_metadatas (chroma_batch policy chunks)).
Proof.
  intros policy chunks. destruct (number_unzip chunks) as [Hfst Hsnd].
  unfold chroma_batch. cbn [batch_documents batch_metadatas batch_ids].
  split; [exact Hsnd |]. split; [now rewrite length_map, <- (length_map fst), Hfst, length_seq |].
  split; [now rewrite map_map |]. split; [| split].
  - replace (map _ (number chunks))
      with (map (fun i => policy_id policy +++ "_chunk_" +++ decimal i)
                (map fst (number chunks))) by now rewrite map_map.
    rewrite Hfst. apply NoDup_map_injective; [| apply seq_NoDup].
    intros i j H. now apply append_injective, append_injective, decimal_injective in H.
  - now rewrite map_map.
  - apply Forall_forall. intros m Hm. apply in_map_iff in Hm.
    destruct Hm as (numbered & <- & _). repeat split.
Qed.

Lemma upload_loop env vectorStore files st :
  fold_left (upload_step env vectorStore) files st
  = {| up_policies := up_policies st ++ accepted_policies files;
       up_batches := up_batches st
                     ++ (if vectorStore
                         then map (policy_batch env) (accepted_policies files) else []);
       up_uploaded := up_uploaded st ++ map policy_summary (accepted_policies files) |}.
Proof.
  revert st. induction files as [| file files IH]; intros st.
  - simpl. destruct st, vectorStore; simpl; now rewrite !app_nil_r.
  - cbn [fold_left]. rewrite IH. unfold upload_step, accepted_policies.
    cbn [flat_map]. fold (accepted_policies files).
    destruct (read_text file) as [text |]; [| reflexivity].
    cbn [up_policies up_batches up_uploaded app map].
    destruct vectorStore; now rewrite <- !app_assoc.
Qed.

(** X17.  An upload without files is refused and changes nothing.  An upload
    with files keeps the policies already held, in place, and appends one
    policy for each file that could be read, in the order of the files; a
    file that cannot be read is passed over.  The response lists exactly the
    appended policies, none with more than 50 keywords, and the vector store,
    when there is one, is handed one batch for each of them. *)
Theorem upload_appends_readable_files :
  forall (env : Env) (vectorStore : bool) (policies : list Policy)
         (files : list UploadedFile),
    post_policies_upload env vectorStore policies files
    = match files with
      | [] => (NoFiles, policies, [])
      | _ => (Uploaded (map policy_summary (accepted_policies files)),
              policies ++ accepted_policies files,
              if vectorStore then map (policy_batch env) (accepted_policies files)
              else [])
      end
    /\ Forall (fun s => keywordCount s <= 50)
              (map policy_summary (accepted_policies files))
    /\ List.length (accepted_policies files) <= List.length files.
Proof.
  intros env vectorStore policies files. split; [| split].
  - destruct files as [| file files]; [reflexivity |].
    unfold post_policies_upload. rewrite upload_loop. reflexivity.
  - apply Forall_forall. intros s Hs. apply in_map_iff in Hs.
    destruct Hs as (p & <- & Hp). unfold accepted_policies in Hp.
    apply in_flat_map in Hp. destruct Hp as (file & _ & Hp).
    destruct (read_text file) as [text |]; [| contradiction].
    destruct Hp as [<- | []]. cbn [policy_summary keywordCount new_policy keywords].
    unfold extractKeywords. rewrite length_map. apply firstn_le_length.
  - induction files as [| file files IH]; [simpl; lia |].
    unfold accepted_policies in *. cbn [flat_map]. rewrite length_app.
    destruct (read_text file); simpl in *; lia.
Qed.

Lemma findIndex_spec {A : Type} (p : A -> bool) (xs : list A) :
  match findIndex p xs with
  | None => forall x, In x xs -> p x = false
  | Some i =>
      exists before x after,
        xs = before ++ x :: after
        /\ List.length before = i
        /\ p x = true
        /\ forall y, In y before -> p y = false
  end.
Proof.
  induction xs as [| x xs IH]; cbn [findIndex]; [intros x [] |].
  destruct (p x) eqn:Hx.
  - exists [], x, xs. repeat split; auto. intros y [].
  - destruct (findIndex p xs) as [i |].
    + destruct IH as (before & y & after & -> & <- & Hy & Hbefore).
      exists (x :: before), y, after. repeat split; auto.
      intros z [<- | Hz]; auto.
    + intros y [<- | Hy]; auto.
Qed.

Lemma splice_one_middle {A : Type} (before after : list A) (x : A) :
  splice_one (List.length before) (before ++ x :: after) = before ++ after.
Proof.
  unfold splice_one. induction before as [| y before IH]; [reflexivity |].
  cbn [List.length app firstn skipn]. cbn [skipn] in IH. now rewrite IH.
Qed.

(** X18.  Deleting a policy by an id that no policy has answers "not found"
    and changes nothing.  Otherwise it removes the first policy with that
    id and only that one: the policies before and after it stay, in
    order. *)
Theorem delete_policy_removes_first_match :
  forall (policies : list Policy) (policyId : string),
    ((forall p, In p policies -> policy_id p <> policyId)
     /\ delete_policy policies policyId = (PolicyNotFound, policies))
    \/ (exists before removed after,
           policies = before ++ removed :: after
           /\ policy_id removed = policyId
           /\ (forall p, In p before -> policy_id p <> policyId)
           /\ delete_policy policies policyId = (PolicyDeleted, before ++ after)).
Proof.
  intros policies policyId. unfold delete_policy.
  pose proof (findIndex_spec (fun p => String.eqb (policy_id p) policyId) policies) as H.
  destruct (findIndex _ policies) as [i |].
  - right. destruct H as (before & removed & after & -> & <- & Hid & Hbefore).
    exists before, removed, after. repeat split.
    + now apply String.eqb_eq.
    + intros p Hp. apply String.eqb_neq. now apply Hbefore.
    + now rewrite splice_one_middle.
  - left. split; [| reflexivity].
    intros p Hp. apply String.eqb_neq. now apply H.
Qed.

(** X19.  When the policies held have pairwise distinct ids, a policy that
    was deleted is gone: deleting the same id again answers "not found", and
    the ids left are still pairwise distinct. *)
Theorem delete_policy_twice :
  forall (policies remaining : list Policy) (policyId : string),
    NoDup (map policy_id policies) ->
    delete_policy policies policyId = (PolicyDeleted, remaining) ->
    delete_policy remaining policyId = (PolicyNotFound, remaining)
    /\ NoDup (map policy_id remaining)
    /\ S (List.length remaining) = List.length policies.
Proof.
  intros policies remaining policyId Hnodup Hdelete. unfold delete_policy in *.
  pose proof (findIndex_spec (fun p => String.eqb (policy_id p) policyId) policies) as H.
  destruct (findIndex _ policies) as [i |]; [| discriminate].
  destruct H as (before & removed & after & -> & <- & Hid & Hbefore).
  rewrite splice_one_middle in Hdelete. inversion Hdelete; subst remaining. clear Hdelete.
  apply String.eqb_eq in Hid. rewrite map_app in Hnodup. cbn [map] in Hnodup.
  pose proof (NoDup_remove_1 _ _ _ Hnodup) as Hrest.
  pose proof (NoDup_remove_2 _ _ _ Hnodup) as Hgone.
  split; [| split].
  - pose proof (findIndex_spec (fun p => String.eqb (policy_id p) policyId)
                  (before ++ after)) as H.
    destruct (findIndex _ (before ++ after)) as [j |]; [| reflexivity].
    exfalso. destruct H as (l1 & x & l2 & Heq & _ & Hx & _).
    apply String.eqb_eq in Hx. apply Hgone. rewrite <- map_app, Heq, Hid, <- Hx.
    apply in_map, in_or_app. right. now left.
  - now rewrite map_app.
  - rewrite !length_app. simpl. lia.
Qed.

(** ** The analysis endpoint and the result history *)

Lemma enhanced_returns env policyCollection anthropic documentText policies :
  exists result,
    performEnhancedAnalysis env policyCollection anthropic documentText policies
    = Return result.
Proof.
  destruct anthropic as [client |]; [| rewrite enhanced_basic; eauto].
  destruct policyCollection as [collection |].
  - rewrite enhanced_rag. destruct (performRAGAnalysis _ _ _ _); eauto.
  - rewrite enhanced_ai. destruct (performAIAnalysis _ _ _); eauto.
Qed.

Lemma store_result_keeps_newest (st : list StoredResult) (r : StoredResult) :
  exists dropped older,
    st = dropped ++ older
    /\ store_result st r = older ++ [r]
    /\ List.length (older ++ [r]) <= 100.
Proof.
  rewrite store_result_spec, length_app. cbn [List.length].
  set (k := List.length st + 1 - 100).
  exists (firstn k st), (skipn k st). split; [now rewrite firstn_skipn |].
  split.
  - rewrite skipn_app. replace (k - List.length st) with 0 by lia. reflexivity.
  - rewrite length_app, length_skipn. cbn [List.length]. lia.
Qed.


Lemma find_none_iff {A : Type} (p : A -> bool) (l : list A) :
  find p l = None <-> forall x, In x l -> p x = false.
Proof.
  induction l as [| x l IH]; simpl; [split; [intros _ y [] | reflexivity] |].
  destruct (p x) eqn:Hx.
  - split; [discriminate |]. intros H. rewrite (H x (or_introl eq_refl)) in Hx.
    discriminate.
  - rewrite IH. split.
    + intros H y [<- | Hy]; auto.
    + intros H y Hy. apply H. now right.
Qed.

Lemma find_app_none {A : Type} (p : A -> bool) (l l' : list A) :
  find p l = None -> find p (l ++ l') = find p l'.
Proof.
  induction l as [| x l IH]; simpl; [reflexivity |].
  destruct (p x); [discriminate | exact IH].
Qed.

(** X21.  A result that the analysis endpoint has just stored is found
    under its id, provided no older result answers to that id and the
    analysis itself carries no [id] property that would shadow it. *)
Theorem stored_result_is_found :
  forall (env : Env) (policyCollection : option RetrievalClient)
         (anthropic : option GenerativeClient) (newId now : string)
         (server after : Server) (documentText : string) (stored : StoredResult),
    get_result (analysisResults server) newId = None ->
    post_analyze env policyCollection anthropic newId now server documentText
    = (Success stored, after) ->
    stored_prop stored "id" = VStr newId ->
    get_result (analysisResults after) newId = Some stored.
Proof.
  intros env policyCollection anthropic newId now server after documentText stored
         Hfresh Hpost Hid.
  unfold post_analyze in Hpost.
  destruct (String.eqb documentText ""); [discriminate |].
  destruct (_ =? _)%nat; [discriminate |].
  destruct (performEnhancedAnalysis _ _ _ _ _) as [analysisResult | e];
    [| discriminate].
  injection Hpost as Hstored Hafter. subst after. cbn [analysisResults].
  rewrite Hstored.
  destruct (store_result_keeps_newest (analysisResults server) stored)
    as (dropped & older & Hsplit & -> & _).
  unfold get_result in *. rewrite find_app_none.
  - cbn [find]. now rewrite Hid, String.eqb_refl.
  - apply find_none_iff. intros x Hx.
    apply (proj1 (find_none_iff _ _) Hfresh).
    rewrite Hsplit. apply in_or_app. now right.
Qed.

Lemma findIndex_first {A : Type} (p : A -> bool) (before after : list A) (x : A) :
  (forall y, In y before -> p y = false) ->
  p x = true ->
  findIndex p (before ++ x :: after) = Some (List.length before).
Proof.
  intros Hbefore Hx. induction before as [| y before IH]; cbn [app findIndex List.length].
  - now rewrite Hx.
  - rewrite (Hbefore y (or_introl eq_refl)), IH; [reflexivity |].
    intros z Hz. apply Hbefore. now right.
Qed.

Lemma accepted_policies_app (files files' : list UploadedFile) :
  accepted_policies (files ++ files')
  = accepted_policies files ++ accepted_policies files'.
Proof. unfold accepted_policies. apply flat_map_app. Qed.

(** X22.  Deleting the policy of an uploaded file by the id it was given
    undoes the upload of that file, when no policy held before it and no
    policy of an earlier file of the upload has that id: the policies are
    then what the upload of the other files alone leaves, and the listing
    shows the policies held before followed by those of the other files. *)
Theorem upload_then_delete :
  forall (env : Env) (vectorStore : bool) (policies : list Policy)
         (earlier later : list UploadedFile) (file : UploadedFile) (text : string),
    read_text file = Some text ->
    (forall p, In p (policies ++ accepted_policies earlier) ->
               policy_id p <> generated_id file) ->
    delete_policy
      (snd (fst (post_policies_upload env vectorStore policies
                   (earlier ++ file :: later))))
      (generated_id file)
    = (PolicyDeleted,
       snd (fst (post_policies_upload env vectorStore policies (earlier ++ later))))
    /\ get_policies
         (snd (fst (post_policies_upload env vectorStore policies (earlier ++ later))))
       = get_policies policies ++ map policy_summary (accepted_policies (earlier ++ later)).
Proof.
  intros env vectorStore policies earlier later file text Hread Hfresh.
  assert (Hheld : forall files,
             snd (fst (post_policies_upload env vectorStore policies files))
             = policies ++ accepted_policies files).
  { intros [| f files]; [cbn; now rewrite app_nil_r |].
    unfold post_policies_upload. now rewrite upload_loop. }
  rewrite !Hheld. split; [| unfold get_policies; apply map_app].
  rewrite !accepted_policies_app.
  change (file :: later) with ([file] ++ later). rewrite accepted_policies_app.
  unfold accepted_policies at 2. cbn [flat_map]. rewrite Hread. cbn [app].
  rewrite !app_assoc. unfold delete_policy. rewrite findIndex_first.
  - now rewrite splice_one_middle.
  - intros p Hp. apply String.eqb_neq. now apply Hfresh.
  - cbn [new_policy policy_id]. apply String.eqb_refl.
Qed.

End Engine.

(** * The properties on the sample inputs *)


(** The retrieval queries throw, and the retrieval-augmented tier completes:
    with the reply of the generative client and no policy analysed. *)
Lemma retrieval_failure_does_not_fail_rag :
  retrieve_attempt default_env retrieval_down sample_contract 10
  = Throw RetrievalUnavailable
  /\ exists r,
       performRAGAnalysis engine_leaves_order default_env retrieval_down
         (client_replying (reply_of 85 "Low")) sample_contract = Return r
       /\ complianceScore r = VInt 85
       /\ policiesAnalyzed r = 0
       /\ ragUsed (analysis r) = true
       /\ performEnhancedAnalysis engine_leaves_order default_env (Some retrieval_down)
            (Some (client_replying (reply_of 85 "Low"))) sample_contract [sample_policy]
          = Return (Built r).
Proof.
  split; [vm_compute; reflexivity |].
  eexists. split; [vm_compute; reflexivity |]. repeat split.
Qed.

Lemma retrieval_failure_witness :
  retrieveRelevantPolicies default_env retrieval_down sample_contract 10 = Return [].
Proof.
  apply (proj1 (retrieval_failure_is_swallowed engine_leaves_order default_env
                  retrieval_down client_down sample_contract RetrievalUnavailable
                  ltac:(vm_compute; reflexivity))).
Defined.


(** The text of the reply is not JSON in the generative-only tier, and the
    analysis succeeds: the controller and the endpoint return the rule-based
    result. *)
Lemma ai_malformed_reply_does_not_fail :
  client_not_json (ai_prompt (ai_context [sample_policy]) sample_contract)
  = Throw MalformedResponse
  /\ performEnhancedAnalysis engine_leaves_order default_env None (Some client_not_json)
       sample_contract [sample_policy]
     = Return (Built (performBasicAnalysis engine_leaves_order sample_contract
                        [sample_policy]))
  /\ performEnhancedAnalysis engine_leaves_order default_env None (Some client_not_json)
       sample_contract [sample_policy]
     <> Throw MalformedResponse
  /\ exists stored,
       fst (post_analyze engine_leaves_order default_env None (Some client_not_json)
              "r1" "2024-01-01T00:00:00.000Z"
              {| policies := [sample_policy]; analysisResults := [] |} sample_contract)
       = Success stored.
Proof.
  split; [reflexivity |]. split; [vm_compute; reflexivity |].
  split; [vm_compute; discriminate |]. eexists. vm_compute. reflexivity.
Qed.

Lemma ai_malformed_witness :
  performAIAnalysis client_not_json sample_contract [sample_policy]
  = Throw MalformedResponse
  /\ performEnhancedAnalysis engine_leaves_order default_env None (Some client_not_json)
       sample_contract [sample_policy]
     = Return (Built (performBasicAnalysis engine_leaves_order sample_contract
                        [sample_policy])).
Proof.
  apply (ai_malformed_reply_falls_back_to_basic engine_leaves_order default_env
           client_not_json sample_contract [sample_policy]).
  reflexivity.
Defined.

Lemma not_well_scored_85_high : ~ well_scored (VInt 85) (VStr "High").
Proof.
  intros (q & n & Hq & Heq & _ & Hrisk).
  inversion Hq; subst q. unfold Qeq in Heq. simpl in Heq.
  assert (n = 85%Z) by lia. subst n. discriminate Hrisk.
Qed.

Lemma not_well_scored_150_low : ~ well_scored (VInt 150) (VStr "Low").
Proof.
  intros (q & n & Hq & Heq & Hrange & _).
  inversion Hq; subst q. unfold Qeq in Heq. simpl in Heq. lia.
Qed.

(** In the retrieval-augmented tier the reply 85 with High is returned as it
    is, though the threshold of 85 is Low; and in the generative-only tier
    the reply 150 is returned as it is, though it is above 100. *)
Lemma generative_score_not_checked :
  (exists result,
      performEnhancedAnalysis engine_leaves_order default_env (Some retrieval_one)
        (Some (client_replying (reply_of 85 "High"))) sample_contract [sample_policy]
      = Return result
      /\ analysis_prop result "complianceScore" = VInt 85
      /\ analysis_prop result "riskLevel" = VStr "High"
      /\ ~ well_scored (analysis_prop result "complianceScore")
                       (analysis_prop result "riskLevel"))
  /\ (exists result,
         performEnhancedAnalysis engine_leaves_order default_env None
           (Some (client_replying (reply_of 150 "Low"))) sample_contract [sample_policy]
         = Return result
         /\ analysis_prop result "complianceScore" = VInt 150
         /\ ~ well_scored (analysis_prop result "complianceScore")
                          (analysis_prop result "riskLevel")).
Proof.
  split.
  - eexists. split; [vm_compute; reflexivity |].
    split; [reflexivity |]. split; [reflexivity |]. exact not_well_scored_85_high.
  - eexists. split; [vm_compute; reflexivity |].
    split; [reflexivity |]. exact not_well_scored_150_low.
Qed.

Lemma scenario_A_witness :
  complianceScore (performBasicAnalysis engine_leaves_order sample_contract [])
  = VInt (100 - Z.min (3 * 2) 20 - 10)
  /\ complianceScore (performBasicAnalysis engine_leaves_order sample_contract [])
     = VInt 84
  /\ riskLevel (performBasicAnalysis engine_leaves_order sample_contract [])
     = VStr "Low".
Proof.
  apply (scenario_A_scores_84_low engine_leaves_order sample_contract);
    vm_compute; reflexivity.
Defined.

Lemma history_of_150_witness :
  get_results (history results_1_to_150) = map summarize (skipn 50 results_1_to_150)
  /\ map summary_id (get_results (history results_1_to_150))
     = map (fun n => VStr ("r" +++ decimal n)) (seq 51 100).
Proof.
  split.
  - apply (proj2 (proj2 (proj2 (history_keeps_last_100 results_1_to_150)))).
    reflexivity.
  - vm_compute. reflexivity.
Defined.

(** The two tokens occur once each, [agreement] first; the keywords come in
    the other order, the numeral being an array index of the frequency
    object.  And under the word [constructor] the frequency object holds a
    string made from the function it inherits, which the comparator cannot
    order: the word stays ahead of one that occurs twice. *)
Lemma keyword_order_counterexample :
  (keyword_tokens "agreement 2024" = ["agreement"; "2024"]
   /\ frequency (keyword_tokens "agreement 2024") "agreement"
      = frequency (keyword_tokens "agreement 2024") "2024"
   /\ occurs_before "agreement" "2024" (keyword_tokens "agreement 2024") = true
   /\ extractKeywords engine_leaves_order "agreement 2024" = ["2024"; "agreement"])
  /\ (keyword_tokens "constructor payment payment" = ["constructor"; "payment"; "payment"]
      /\ wordFreq (keyword_tokens "constructor payment payment")
         = [("constructor", Str "function Object() { [native code] }1");
            ("payment", Num 2)]
      /\ consistent_comparator
           (entries (wordFreq (keyword_tokens "constructor payment payment"))) = true
      /\ extractKeywords engine_leaves_order "constructor payment payment"
         = ["constructor"; "payment"]).
Proof. repeat split; vm_compute; reflexivity. Qed.

Lemma extractKeywords_order_witness :
  Forall (fun k => In k (keyword_tokens "Payment terms: payment due 2024, net 1000.")
                   /\ toLowerCase k = k
                   /\ 3 < String.length k
                   /\ includes commonWords k = false)
         (extractKeywords engine_leaves_order "Payment terms: payment due 2024, net 1000.")
  /\ StronglySorted (keyword_order (keyword_tokens "Payment terms: payment due 2024, net 1000."))
       (extractKeywords engine_leaves_order "Payment terms: payment due 2024, net 1000.").
Proof.
  apply (proj2 (extractKeywords_order engine_leaves_order
                  "Payment terms: payment due 2024, net 1000.")).
  vm_compute. intuition discriminate.
Defined.

Example extractKeywords_sample :
  extractKeywords engine_leaves_order "Payment terms: payment due 2024, net 1000."
  = ["payment"; "1000"; "2024"; "terms"].
Proof. vm_compute. reflexivity. Qed.

(** * The further properties on the sample inputs *)

Lemma chunkDocument_text_that_fits_witness :
  chunkDocument default_env sample_contract None None
  = [normalized_text sample_contract]
  /\ normalized_text sample_contract
     = "The parties agree the term is one year. Seller shall deliver. Buyer SHALL pay; and shall, by law, insure.".
Proof.
  split; [| vm_compute; reflexivity].
  apply (chunkDocument_text_that_fits default_env sample_contract None None).
  apply Z.leb_le. vm_compute. reflexivity.
Defined.

Lemma chunkDocument_blank_text_witness :
  chunkDocument default_env " . !?  .. " None None = [].
Proof.
  apply (chunkDocument_blank_text default_env " . !?  .. " None None).
  vm_compute. reflexivity.
Defined.

Lemma extractKeywords_distinct_witness :
  NoDup (extractKeywords engine_leaves_order "__proto__ payment __proto__ payment terms")
  /\ ~ In "__proto__"
       (extractKeywords engine_leaves_order "__proto__ payment __proto__ payment terms").
Proof.
  apply (extractKeywords_distinct engine_leaves_order
           "__proto__ payment __proto__ payment terms").
  vm_compute. intuition discriminate.
Defined.

Lemma extractKeywords_keeps_the_most_frequent_witness :
  In "seller" (extractKeywords engine_leaves_order sample_contract)
  \/ (List.length (extractKeywords engine_leaves_order sample_contract) = 50
      /\ forall k, In k (extractKeywords engine_leaves_order sample_contract) ->
                   frequency (keyword_tokens sample_contract) "seller"
                   <= frequency (keyword_tokens sample_contract) k).
Proof.
  apply (extractKeywords_keeps_the_most_frequent engine_leaves_order
           sample_contract "seller").
  - vm_compute. intuition discriminate.
  - vm_compute. tauto.
  - discriminate.
Defined.

(** The policy made from the text of the contract itself. *)
Lemma basic_covered_policy_is_free_witness :
  issues (performBasicAnalysis engine_leaves_order sample_contract
            ([sample_policy]
             ++ [new_policy engine_leaves_order
                   {| originalname := "contract.txt";
                      upload_filename := "1700000000001_contract.txt";
                      upload_path := "uploads/policies/1700000000001_contract.txt";
                      upload_size := 105;
                      read_text := Some sample_contract;
                      generated_id := "a1b2c3d4e5f6g7h8";
                      read_date := "2024-01-02T00:00:00.000Z" |}
                   sample_contract]))
  = issues (performBasicAnalysis engine_leaves_order sample_contract [sample_policy]).
Proof.
  apply (basic_covered_policy_is_free engine_leaves_order sample_contract
           [sample_policy]).
  intros k Hk. apply (firstn_In _ 10). exact Hk.
Defined.


Lemma ai_tier_marks_the_reply_witness :
  exists marked,
    performEnhancedAnalysis engine_leaves_order default_env None
      (Some (client_replying (reply_of 85 "Low"))) sample_contract [sample_policy]
    = Return (Reply marked)
    /\ analysis_prop (Reply marked) "analysis" = ai_flags
    /\ forall key, key <> "analysis" ->
                   analysis_prop (Reply marked) key
                   = value_prop (reply_of 85 "Low") key.
Proof.
  apply (proj1 (ai_tier_marks_the_reply engine_leaves_order default_env
                  (client_replying (reply_of 85 "Low")) sample_contract
                  [sample_policy] (reply_of 85 "Low") eq_refl)
               _ eq_refl).
Defined.


Lemma delete_policy_twice_witness :
  delete_policy [sample_policy] "p" = (PolicyNotFound, [sample_policy])
  /\ NoDup (map policy_id [sample_policy])
  /\ S (List.length [sample_policy]) = List.length [sample_policy; uncovered_policy].
Proof.
  apply (delete_policy_twice [sample_policy; uncovered_policy] [sample_policy] "p").
  - repeat constructor; vm_compute; intuition discriminate.
  - vm_compute. reflexivity.
Defined.


Lemma stored_result_is_found_witness :
  exists stored after,
    post_analyze engine_leaves_order default_env None None "r151"
      "2024-01-01T00:00:00.000Z"
      {| policies := [sample_policy]; analysisResults := results_1_to_150 |}
      sample_contract
    = (Success stored, after)
    /\ get_result (analysisResults after) "r151" = Some stored.
Proof.
  eexists. eexists. split; [vm_compute; reflexivity |].
  apply (stored_result_is_found engine_leaves_order default_env None None "r151"
           "2024-01-01T00:00:00.000Z"
           {| policies := [sample_policy]; analysisResults := results_1_to_150 |}
           _ sample_contract _).
  - vm_compute. reflexivity.
  - vm_compute. reflexivity.
  - vm_compute. reflexivity.
Defined.

Lemma upload_then_delete_witness :
  delete_policy
    (snd (fst (post_policies_upload engine_leaves_order default_env true [sample_policy]
                 ([] ++ {| originalname := "contract.txt";
                           upload_filename := "1700000000001_contract.txt";
                           upload_path := "uploads/policies/1700000000001_contract.txt";
                           upload_size := 105;
                           read_text := Some sample_contract;
                           generated_id := "a1b2c3d4e5f6g7h8";
                           read_date := "2024-01-02T00:00:00.000Z" |} :: []))))
    "a1b2c3d4e5f6g7h8"
  = (PolicyDeleted, [sample_policy]).
Proof.
  apply (proj1 (upload_then_delete engine_leaves_order default_env true [sample_policy]
                  [] []
                  {| originalname := "contract.txt";
                     upload_filename := "1700000000001_contract.txt";
                     upload_path := "uploads/policies/1700000000001_contract.txt";
                     upload_size := 105;
                     read_text := Some sample_contract;
                     generated_id := "a1b2c3d4e5f6g7h8";
                     read_date := "2024-01-02T00:00:00.000Z" |}
                  sample_contract eq_refl
                  ltac:(intros p Hp; cbn in Hp;
                        destruct Hp as [<- | []]; discriminate))).
Defined.
